(** * Verification of the download-and-merge service (src/app.py)

    A shallow embedding of the link validation, title sanitizing, thumbnail
    fetch, stream selection, path derivation, merge, per-run cleanup,
    periodic cleanup and file routes of [src/app.py], the properties its
    specification states about them, and further properties read off the
    code.

    Conventions of the embedding:
    - a Python [str] is the list of its code points ([list N]); literals of
      the source are written through [lit];
    - a Python [dict] with string keys is a [gmap string pyval];
    - the dynamically typed values that reach the modelled code are [None],
      integers and strings ([pyval]); floats and nested containers are outside
      the modelled universe;
    - a raised exception is the [Raise] case of [result]; the exception
      classes are those the modelled statements can raise. *)

From Stdlib Require Import ZArith NArith List Ascii String Bool Lia.
From stdpp Require Import base option list gmap strings.
Import ListNotations.

Local Open Scope N_scope.

(** ** Python strings *)

Module PyStr.

(** A code point. *)
Definition char := N.
Definition str := list N.

Definition lit (s : string) : str :=
  map (fun a => N_of_ascii a) (list_ascii_of_string s).

Definition char_eqb (a b : char) : bool := N.eqb a b.

Fixpoint str_eqb (a b : str) : bool :=
  match a, b with
  | [], [] => true
  | x :: a', y :: b' => char_eqb x y && str_eqb a' b'
  | _, _ => false
  end.

(** [str.isspace] on one code point: the code points for which CPython's
    [Py_UNICODE_ISSPACE] holds (bidirectional type WS, B or S, or
    category Zs). *)
Definition isspace (c : char) : bool :=
  ((9 <=? c) && (c <=? 13))
  || ((28 <=? c) && (c <=? 32))
  || (c =? 133) || (c =? 160) || (c =? 5760)
  || ((8192 <=? c) && (c <=? 8202))
  || (c =? 8232) || (c =? 8233) || (c =? 8239) || (c =? 8287)
  || (c =? 12288).

Fixpoint lstrip (s : str) : str :=
  match s with
  | [] => []
  | c :: r => if isspace c then lstrip r else s
  end.

Definition rstrip (s : str) : str := rev (lstrip (rev s)).

(** [s.strip()] *)
Definition strip (s : str) : str := rstrip (lstrip s).

(** [s.startswith(p)] *)
Fixpoint startswith (p s : str) : bool :=
  match p, s with
  | [], _ => true
  | x :: p', y :: s' => char_eqb x y && startswith p' s'
  | _ :: _, [] => false
  end.

Definition endswith (p s : str) : bool := startswith (rev p) (rev s).

(** Decimal digits of a natural number, most significant first. *)
Fixpoint digits_fuel (fuel : nat) (n : N) (acc : str) : str :=
  match fuel with
  | O => acc
  | S f =>
      let acc' := (48 + n mod 10) :: acc in
      if n / 10 =? 0 then acc' else digits_fuel f (n / 10) acc'
  end.

Definition decimal (n : N) : str := digits_fuel (S (N.to_nat (N.log2 n))) n [].

(** The number a string of decimal digits denotes. *)
Definition digits_value (s : str) : N :=
  fold_left (fun v c => 10 * v + (c - 48)) s 0.

(** [%0wd]: decimal, left-padded with zeros to width [w]. *)
Definition zero_pad (w : nat) (n : N) : str :=
  let d := decimal n in
  repeat 48 (w - length d)%nat ++ d.

End PyStr.
Import PyStr.

(** ** The filename sanitizer *)

(** The character class of [illegal_char_pattern]: backslash, slash, star,
    question mark, colon, double quote, less-than, greater-than and bar. *)
Definition illegal_char (c : char) : bool :=
  (c =? 92) || (c =? 47) || (c =? 42) || (c =? 63) || (c =? 58)
  || (c =? 34) || (c =? 60) || (c =? 62) || (c =? 124).

(** The nine characters of the illegal set, as code points, in the order
    the specification lists them. *)
Definition illegal_set : list char := [92; 47; 58; 42; 63; 34; 60; 62; 124].

(** [re.sub(illegal_char_pattern, empty, title)]: every match of a
    one-character class is removed. *)
Definition remove_illegal (title : str) : str :=
  List.filter (fun c => negb (illegal_char c)) title.

Definition sanitize_filename (title : str) : str :=
  strip (remove_illegal title).

(** ** Python values, exceptions and the error monad *)

Inductive pyval : Type :=
  | VNone : pyval
  | VInt : Z -> pyval
  | VStr : str -> pyval.

(** The exception classes the modelled statements raise. *)
Inductive exn : Type :=
  | TypeError | KeyError | ValueError | RuntimeError | OSError
  | DownloadError | ExtractorError.

Inductive result (A : Type) : Type :=
  | Return : A -> result A
  | Raise : exn -> result A.
Arguments Return {A} _.
Arguments Raise {A} _.

Definition bind {A B} (m : result A) (k : A -> result B) : result B :=
  match m with
  | Return a => k a
  | Raise e => Raise e
  end.

Declare Scope py_scope.
Delimit Scope py_scope with py.
Notation "x <- m ;; k" := (bind m (fun x => k))
  (at level 100, m at next level, right associativity) : py_scope.
Local Open Scope py_scope.

(** A dict with string keys. *)
Abbreviation pydict := (gmap string pyval).

(** [d.get(k)]: [None] when the key is absent. *)
Definition get (d : pydict) (k : string) : pyval :=
  default VNone (d !! k).

(** [d.get(k, dflt)]: the default only replaces an absent key; a key that is
    present with value [None] yields [None]. *)
Definition get_default (d : pydict) (k : string) (dflt : pyval) : pyval :=
  default dflt (d !! k).

(** [d[k]] *)
Definition getitem (d : pydict) (k : string) : result pyval :=
  match d !! k with
  | Some v => Return v
  | None => Raise KeyError
  end.

(** [a == b] on the modelled values: never raises. *)
Definition py_eq (a b : pyval) : bool :=
  match a, b with
  | VNone, VNone => true
  | VInt x, VInt y => Z.eqb x y
  | VStr x, VStr y => str_eqb x y
  | _, _ => false
  end.

Definition py_ne (a b : pyval) : bool := negb (py_eq a b).

(** Lexicographic [a > b] on code points. *)
Fixpoint str_gtb (a b : str) : bool :=
  match a, b with
  | [], _ => false
  | _ :: _, [] => true
  | x :: a', y :: b' =>
      if N.ltb y x then true else if N.ltb x y then false else str_gtb a' b'
  end.

(** [a > b]: integers and strings are ordered among themselves; every other
    pair raises [TypeError]. *)
Definition py_gt (a b : pyval) : result bool :=
  match a, b with
  | VInt x, VInt y => Return (Z.gtb x y)
  | VStr x, VStr y => Return (str_gtb x y)
  | _, _ => Raise TypeError
  end.

(** [a >= b] *)
Definition py_ge (a b : pyval) : result bool :=
  match a, b with
  | VInt x, VInt y => Return (Z.geb x y)
  | VStr x, VStr y => Return (negb (str_gtb y x))
  | _, _ => Raise TypeError
  end.

(** Truth value of [v] ([if v:]). *)
Definition truthy (v : pyval) : bool :=
  match v with
  | VNone => false
  | VInt z => negb (Z.eqb z 0)
  | VStr s => match s with [] => false | _ => true end
  end.

(** [str(v)] as an f-string field formats it. *)
Definition py_format (v : pyval) : str :=
  match v with
  | VNone => lit "None"
  | VInt z =>
      match z with
      | Z0 => decimal 0
      | Zpos p => decimal (Npos p)
      | Zneg p => lit "-" ++ decimal (Npos p)
      end
  | VStr s => s
  end.

(** ** Built-ins used by the selection *)

Section Builtins.
Context {A : Type}.

(** The loop of [max(iterable, key=...)]: the running maximum is replaced
    only by an item whose key is strictly greater, so the first maximum
    wins. *)
Fixpoint max_loop (key : A -> pyval) (maxitem : A) (maxval : pyval)
    (rest : list A) : result A :=
  match rest with
  | [] => Return maxitem
  | item :: rest' =>
      let val := key item in
      gt <- py_gt val maxval ;;
      if (gt : bool) then max_loop key item val rest'
      else max_loop key maxitem maxval rest'
  end.

(** [max(l, key=key)]; an empty argument raises [ValueError]. *)
Definition py_max (key : A -> pyval) (l : list A) : result A :=
  match l with
  | [] => Raise ValueError
  | item :: rest => max_loop key item (key item) rest
  end.

(** [next((x for x in l if cond(x)), dflt)]: the generator is consumed up
    to its first item; [dflt] has already been evaluated by the caller. *)
Fixpoint next_or (cond : A -> result bool) (l : list A) (dflt : A)
    : result A :=
  match l with
  | [] => Return dflt
  | x :: l' =>
      c <- cond x ;;
      if (c : bool) then Return x else next_or cond l' dflt
  end.
End Builtins.

(** ** Configuration *)

Record config : Type := {
  DOWNLOAD_FOLDER : str;
  TEMP_FOLDER : str;
  MAX_FILE_AGE : Z;
  THUMBNAIL_TIMEOUT : Z;
  AUDIO_PREFERRED_ASR : Z;
  AUDIO_BITRATE : str
}.

Definition app_config : config := {|
  DOWNLOAD_FOLDER := lit "downloads";
  TEMP_FOLDER := lit "temp";
  MAX_FILE_AGE := 3600;
  THUMBNAIL_TIMEOUT := 10;
  AUDIO_PREFERRED_ASR := 48000;
  AUDIO_BITRATE := lit "192k"
|}.

(** ** Stream classification and selection (steps 6 to 8 of [index]) *)

Definition none_str : pyval := VStr (lit "none").

Definition is_pure_video (fmt : pydict) : bool :=
  py_ne (get fmt "vcodec") none_str && py_eq (get fmt "acodec") none_str.

Definition is_pure_audio (fmt : pydict) : bool :=
  py_ne (get fmt "acodec") none_str && py_eq (get fmt "vcodec") none_str.

Definition pure_video_formats (all_formats : list pydict) : list pydict :=
  List.filter is_pure_video all_formats.

Definition pure_audio_formats (all_formats : list pydict) : list pydict :=
  List.filter is_pure_audio all_formats.

Definition height_key (x : pydict) : pyval := get_default x "height" (VInt 0).
Definition asr_key (x : pydict) : pyval := get_default x "asr" (VInt 0).

(** Step 7. The second argument of [next] is evaluated before [next] runs. *)
Definition select_video (pure_video : list pydict) : result pydict :=
  dflt <- py_max height_key pure_video ;;
  next_or (fun fmt => Return (py_eq (get fmt "height") (VInt 1080)))
    pure_video dflt.

(** Step 8. *)
Definition select_audio (cfg : config) (pure_audio : list pydict)
    : result pydict :=
  dflt <- py_max asr_key pure_audio ;;
  next_or (fun fmt => py_ge (get_default fmt "asr" (VInt 0))
                        (VInt (AUDIO_PREFERRED_ASR cfg)))
    pure_audio dflt.

(** The outcome of steps 6 to 8: the guard on empty lists answers with the
    no-usable-stream page before either selection runs. *)
Inductive selection : Type :=
  | NoStream : selection
  | Selected : pydict -> pydict -> selection.

Definition select_streams (cfg : config) (all_formats : list pydict)
    : result selection :=
  let pv := pure_video_formats all_formats in
  let pa := pure_audio_formats all_formats in
  match pv, pa with
  | [], _ | _, [] => Return NoStream
  | _, _ =>
      v <- select_video pv ;;
      a <- select_audio cfg pa ;;
      Return (Selected v a)
  end.

(** ** Clock, timestamps and paths *)

(** What [datetime.now()] returns. *)
Record datetime : Type := {
  year : N; month : N; day : N;
  hour : N; minute : N; second : N;
  microsecond : N
}.

(** [now.strftime("%Y%m%d%H%M%S")]: the microsecond field is not printed. *)
Definition strftime_YmdHMS (now : datetime) : str :=
  zero_pad 4 (year now) ++ zero_pad 2 (month now) ++ zero_pad 2 (day now)
  ++ zero_pad 2 (hour now) ++ zero_pad 2 (minute now)
  ++ zero_pad 2 (second now).

(** [os.path.join(a, b)] (posixpath). *)
Definition path_join (a b : str) : str :=
  if startswith (lit "/") b then b
  else if match a with [] => true | _ => endswith (lit "/") a end then a ++ b
  else a ++ lit "/" ++ b.

(** ** URL validation *)

Fixpoint strip_prefix (p s : str) : option str :=
  match p, s with
  | [], _ => Some s
  | x :: p', y :: s' => if char_eqb x y then strip_prefix p' s' else None
  | _ :: _, [] => None
  end.

Definition is_alnum (c : char) : bool :=
  ((97 <=? c) && (c <=? 122)) || ((65 <=? c) && (c <=? 90))
  || ((48 <=? c) && (c <=? 57)).

(** The class [a-zA-Z0-9_?=/-]. *)
Definition is_video_path_char (c : char) : bool :=
  is_alnum c || (c =? 95) || (c =? 63) || (c =? 61) || (c =? 47) || (c =? 45).

(** [re.fullmatch] of [https?://] followed by the literal [rest] and one or
    more characters of [cls]. *)
Definition fullmatch_shape (rest : str) (cls : char -> bool) (url : str)
    : bool :=
  let tail_ok r :=
    match strip_prefix (lit "://" ++ rest) r with
    | Some (c :: t) => forallb cls (c :: t)
    | _ => false
    end in
  match strip_prefix (lit "http") url with
  | None => false
  | Some r =>
      tail_ok r
      || match r with
         | c :: r' => (c =? 115) && tail_ok r'
         | [] => false
         end
  end.

Definition is_valid_bilibili_url (url : str) : bool :=
  fullmatch_shape (lit "www.bilibili.com/video/") is_video_path_char url
  || fullmatch_shape (lit "b23.tv/") is_alnum url.

(** ** The world of one request: files on disk and the calls made *)

Inductive event : Type :=
  | EvExtract (url : str)
  | EvThumbnail (url : pyval) (path : str)
  | EvDownload (url format_id outtmpl : str)
  | EvFfmpeg (argv : list str)
  | EvRemove (path : str).

Record world : Type := {
  files : gset str;      (* the paths that exist *)
  trace : list event     (* external calls so far, oldest first *)
}.

Definition path_exists (w : world) (p : str) : bool := bool_decide (p ∈ files w).

Definition record (e : event) (w : world) : world :=
  {| files := files w; trace := trace w ++ [e] |}.

Definition create (p : str) (w : world) : world :=
  {| files := {[ p ]} ∪ files w; trace := trace w |}.

Definition unlink (p : str) (w : world) : world :=
  {| files := files w ∖ {[ p ]}; trace := trace w |}.

(** The answers of the external collaborators during one request. Their
    effects on the files are those their interfaces state: the thumbnail
    fetch and a download may leave a file at the path they are given, the
    merge tool may write its output path, and none of them removes a file. *)
Inductive thumb_outcome : Type :=
  | ThumbSaved
  | ThumbFailed (file_left : bool).

Record download_outcome : Type := {
  dl_raises : bool;        (* [ydl.download] raised *)
  dl_leaves_file : bool    (* a file exists at [outtmpl] afterwards *)
}.

Inductive tool_outcome : Type :=
  | ToolExit (returncode : Z) (wrote_output : bool)
  | ToolNotStarted.        (* [subprocess.run] itself raised *)

Record video_info : Type := {
  vi_fields : pydict;
  vi_formats : option (list pydict)
}.

Record environment : Type := {
  extract_info : str -> result video_info;
  fetch_thumbnail : pyval -> str -> thumb_outcome;
  ydl_download : str -> str -> str -> download_outcome;
  run_ffmpeg : list str -> tool_outcome;
  os_remove_raises : str -> bool
}.

(** State and exceptions: a raised exception keeps the world reached. *)
Definition M (A : Type) : Type := world -> result A * world.

Definition ret {A} (a : A) : M A := fun w => (Return a, w).
Definition throw {A} (e : exn) : M A := fun w => (Raise e, w).
Definition lift {A} (r : result A) : M A := fun w => (r, w).
Definition bindM {A B} (m : M A) (k : A -> M B) : M B :=
  fun w =>
    match m w with
    | (Return a, w') => k a w'
    | (Raise e, w') => (Raise e, w')
    end.
Definition effect (f : world -> world) : M unit := fun w => (Return tt, f w).
Definition ask_exists (p : str) : M bool := fun w => (Return (path_exists w p), w).

Notation "x <~ m ;; k" := (bindM m (fun x => k))
  (at level 100, m at next level, right associativity) : py_scope.
Notation "m ;;; k" := (bindM m (fun _ => k))
  (at level 100, right associativity) : py_scope.

(** ** The thumbnail fetcher and the merger *)

Definition thumbnail_path_of (cfg : config) (filename_prefix : str) : str :=
  path_join (DOWNLOAD_FOLDER cfg) (filename_prefix ++ lit "_thumb.jpg").

Definition download_thumbnail (env : environment) (cfg : config)
    (thumbnail_url : pyval) (filename_prefix : str) : M (option str) :=
  let thumbnail_filename := filename_prefix ++ lit "_thumb.jpg" in
  let thumbnail_path := thumbnail_path_of cfg filename_prefix in
  effect (record (EvThumbnail thumbnail_url thumbnail_path)) ;;;
  match fetch_thumbnail env thumbnail_url thumbnail_path with
  | ThumbSaved =>
      effect (create thumbnail_path) ;;; ret (Some thumbnail_filename)
  | ThumbFailed file_left =>
      (if file_left then effect (create thumbnail_path) else ret tt) ;;;
      ret None
  end.

Definition ffmpeg_command (cfg : config) (video_path audio_path output_path : str)
    : list str :=
  [ lit "ffmpeg"; lit "-y";
    lit "-i"; video_path;
    lit "-i"; audio_path;
    lit "-c:v"; lit "copy";
    lit "-c:a"; lit "aac";
    lit "-b:a"; AUDIO_BITRATE cfg;
    lit "-strict"; lit "experimental";
    lit "-loglevel"; lit "error";
    output_path ].

(** [merge_audio_video]: every exception is caught inside, so the result is
    a plain boolean. *)
Definition merge_audio_video (env : environment) (cfg : config)
    (video_path audio_path output_path : str) (w : world) : bool * world :=
  if negb (path_exists w video_path) then (false, w)
  else if negb (path_exists w audio_path) then (false, w)
  else
    let argv := ffmpeg_command cfg video_path audio_path output_path in
    let w1 := record (EvFfmpeg argv) w in
    match run_ffmpeg env argv with
    | ToolNotStarted => (false, w1)
    | ToolExit returncode wrote_output =>
        let w2 := if wrote_output then create output_path w1 else w1 in
        if negb (Z.eqb returncode 0) then (false, w2) else (true, w2)
    end.

(** ** The request handler [index], POST branch *)

Inductive page_error : Type :=
  | EmptyUrl               (* step 1 *)
  | InvalidUrl             (* step 2 *)
  | NoUsableStream         (* the guard after step 6 *)
  | ProcessingFailed (e : exn).   (* the handler of the [try] *)

Inductive response : Type :=
  | ErrorPage (e : page_error)
  | SuccessPage (filename video_title : str) (thumbnail : option str)
      (duration uploader : pyval).

(** [sanitize_filename] applied to a value that may not be a string:
    [re.sub] raises [TypeError] on anything else. *)
Definition call_sanitize_filename (title : pyval) : result str :=
  match title with
  | VStr s => Return (sanitize_filename s)
  | _ => Raise TypeError
  end.

Definition unknown_uploader : str := [26410; 30693; 85; 80; 20027].

Definition ydl_download_to (env : environment) (video_url format_id outtmpl : str)
    : M unit :=
  effect (record (EvDownload video_url format_id outtmpl)) ;;;
  let o := ydl_download env video_url format_id outtmpl in
  (if dl_leaves_file o then effect (create outtmpl) else ret tt) ;;;
  if dl_raises o then throw DownloadError else ret tt.

(** One iteration of the loop of step 13. *)
Definition remove_temp_file (env : environment) (temp_file : str) : M unit :=
  e <~ ask_exists temp_file ;;
  if (e : bool) then
    effect (record (EvRemove temp_file)) ;;;
    if os_remove_raises env temp_file then ret tt
    else effect (unlink temp_file)
  else ret tt.

Definition video_title_of (fields : pydict) (timestamp : str) : result str :=
  call_sanitize_filename
    (get_default fields "title" (VStr (lit "video_" ++ timestamp))).

Definition filename_prefix_of (video_title timestamp : str) : str :=
  video_title ++ lit "_" ++ timestamp.

Definition temp_video_path_of (cfg : config) (filename_prefix : str) (ext : pyval)
    : str :=
  path_join (TEMP_FOLDER cfg) (filename_prefix ++ lit "_video." ++ py_format ext).

Definition temp_audio_path_of (cfg : config) (filename_prefix : str) (ext : pyval)
    : str :=
  path_join (TEMP_FOLDER cfg) (filename_prefix ++ lit "_audio." ++ py_format ext).

Definition final_video_filename_of (filename_prefix : str) : str :=
  filename_prefix ++ lit ".mp4".

Definition final_video_path_of (cfg : config) (filename_prefix : str) : str :=
  path_join (DOWNLOAD_FOLDER cfg) (final_video_filename_of filename_prefix).

(** Steps 12 to 14: merge, then remove the temporary files, then answer. *)
Definition merge_and_finish (env : environment) (cfg : config)
    (temp_video_path temp_audio_path final_video_filename final_video_path : str)
    (video_title : str) (local_thumbnail : option str)
    (video_duration video_uploader : pyval) : M response :=
  merged <~ (fun w =>
               let '(b, w') := merge_audio_video env cfg temp_video_path
                                 temp_audio_path final_video_path w in
               (Return b, w')) ;;
  if negb merged then throw RuntimeError
  else
    remove_temp_file env temp_video_path ;;;
    remove_temp_file env temp_audio_path ;;;
    ret (SuccessPage final_video_filename video_title local_thumbnail
           video_duration video_uploader).

(** The body of the [try] block. *)
Definition index_try (env : environment) (cfg : config) (now : datetime)
    (video_url : str) : M response :=
  let timestamp := strftime_YmdHMS now in
  effect (record (EvExtract video_url)) ;;;
  video_info <~ lift (extract_info env video_url) ;;
  video_title <~ lift (video_title_of (vi_fields video_info) timestamp) ;;
  let all_formats := default [] (vi_formats video_info) in
  let thumbnail_url := get_default (vi_fields video_info) "thumbnail" (VStr []) in
  let video_duration := get_default (vi_fields video_info) "duration" (VInt 0) in
  let video_uploader :=
    get_default (vi_fields video_info) "uploader" (VStr unknown_uploader) in
  let filename_prefix := filename_prefix_of video_title timestamp in
  local_thumbnail <~
    (if truthy thumbnail_url
     then download_thumbnail env cfg thumbnail_url filename_prefix
     else ret None) ;;
  sel <~ lift (select_streams cfg all_formats) ;;
  match sel with
  | NoStream => ret (ErrorPage NoUsableStream)
  | Selected selected_video_format selected_audio_format =>
      vext <~ lift (getitem selected_video_format "ext") ;;
      let temp_video_path := temp_video_path_of cfg filename_prefix vext in
      aext <~ lift (getitem selected_audio_format "ext") ;;
      let temp_audio_path := temp_audio_path_of cfg filename_prefix aext in
      let final_video_filename := final_video_filename_of filename_prefix in
      let final_video_path := final_video_path_of cfg filename_prefix in
      vid <~ lift (getitem selected_video_format "format_id") ;;
      ydl_download_to env video_url (py_format vid) temp_video_path ;;;
      aid <~ lift (getitem selected_audio_format "format_id") ;;
      ydl_download_to env video_url (py_format aid) temp_audio_path ;;;
      merge_and_finish env cfg temp_video_path temp_audio_path
        final_video_filename final_video_path video_title local_thumbnail
        video_duration video_uploader
  end.

(** [index] on a POST request whose form field [video_url] is
    [form_video_url] ([None] when the field is absent). *)
Definition index_post (env : environment) (cfg : config) (now : datetime)
    (form_video_url : option str) (w : world) : response * world :=
  let video_url := strip (default [] form_video_url) in
  match video_url with
  | [] => (ErrorPage EmptyUrl, w)
  | _ =>
      if negb (is_valid_bilibili_url video_url) then (ErrorPage InvalidUrl, w)
      else
        match index_try env cfg now video_url w with
        | (Return r, w') => (r, w')
        | (Raise e, w') => (ErrorPage (ProcessingFailed e), w')
        end
  end.

(** ** The janitor [clean_old_files] *)

Module Janitor.

(** One name returned by [os.listdir]: whether it is a regular file, its
    creation time, and whether [os.remove] on it raises. Times are exact
    numbers of seconds; the rounding of float subtraction is not
    modelled. *)
Record entry : Type := {
  name : str;
  is_file : bool;
  ctime : Z;
  remove_raises : bool
}.

(** A target folder: [None] when [os.path.exists] is false, otherwise its
    entries in the order [os.listdir] returns them. *)
Definition folder : Type := option (list entry).

Definition expired (cfg : config) (current_time : Z) (e : entry) : bool :=
  is_file e && Z.gtb (current_time - ctime e) (MAX_FILE_AGE cfg).

(** The inner [for] loop: the entries left in the folder, and the exception
    that left the loop, if any. A raising [os.remove] leaves its file and
    everything after it in place. *)
Fixpoint clean_listing (cfg : config) (current_time : Z) (l : list entry)
    : list entry * option exn :=
  match l with
  | [] => ([], None)
  | e :: rest =>
      if expired cfg current_time e then
        if remove_raises e then (e :: rest, Some OSError)
        else clean_listing cfg current_time rest
      else
        let '(rest', x) := clean_listing cfg current_time rest in
        (e :: rest', x)
  end.

Definition clean_folder (cfg : config) (current_time : Z) (f : folder)
    : folder * option exn :=
  match f with
  | None => (None, None)
  | Some l =>
      let '(l', x) := clean_listing cfg current_time l in (Some l', x)
  end.

(** The state of the two target folders, download folder first. *)
Record disk : Type := { download_dir : folder; temp_dir : folder }.

(** One pass of the [while] body up to the [sleep]: the [try] block over
    both folders; the result tells whether the handler ran. *)
Definition clean_cycle (cfg : config) (current_time : Z) (d : disk)
    : disk * option exn :=
  match clean_folder cfg current_time (download_dir d) with
  | (dl, Some x) => ({| download_dir := dl; temp_dir := temp_dir d |}, Some x)
  | (dl, None) =>
      let '(tp, x) := clean_folder cfg current_time (temp_dir d) in
      ({| download_dir := dl; temp_dir := tp |}, x)
  end.

(** The [while True] loop unrolled over the successive readings of
    [time.time()]: one cycle per reading, with the handler's log. Between two
    cycles the folders are taken to change by the janitor's removals only. *)
Fixpoint clean_old_files (cfg : config) (clock : list Z) (d : disk)
    : disk * list (option exn) :=
  match clock with
  | [] => (d, [])
  | current_time :: later =>
      let '(d1, x) := clean_cycle cfg current_time d in
      let '(d2, log) := clean_old_files cfg later d1 in
      (d2, x :: log)
  end.

(** The entries a complete sweep of a listing leaves. *)
Definition cleaned (cfg : config) (current_time : Z) (l : list entry) : list entry :=
  List.filter (fun e => negb (expired cfg current_time e)) l.

(** [e] is listed in the folder. *)
Definition listed (f : folder) (e : entry) : Prop :=
  exists l, f = Some l /\ In e l.

(** The folder was swept to its end: it is missing and was skipped, or
    every expired regular file is gone and every other entry is there. *)
Definition swept (cfg : config) (current_time : Z) (f f' : folder) : Prop :=
  f' = option_map (cleaned cfg current_time) f.

(** The sweep of the folder stopped at the entry [e], an expired regular file
    whose removal raised: the entries before it were swept, [e] and all the
    entries after it are still there. *)
Definition stopped_at (cfg : config) (current_time : Z) (e : entry)
    (f f' : folder) : Prop :=
  exists l1 l2,
    f = Some (l1 ++ e :: l2)
    /\ expired cfg current_time e = true /\ remove_raises e = true
    /\ f' = Some (cleaned cfg current_time l1 ++ e :: l2).

(** Two expired files, the first of which cannot be removed. *)
Definition locked_file : entry :=
  {| name := lit "locked.mp4"; is_file := true; ctime := 0; remove_raises := true |}.

Definition stale_file : entry :=
  {| name := lit "stale.mp4"; is_file := true; ctime := 0; remove_raises := false |}.

Definition demo_disk : disk :=
  {| download_dir := Some [locked_file; stale_file];
     temp_dir := Some [stale_file] |}.

End Janitor.

(** ** The selection rule in the specification's words

    These two predicates follow the wording of the specification; the
    selection functions above follow the source. *)

(** [x] is the first item of [l], in order, that satisfies [P]. *)
Definition first_such {A} (P : A -> Prop) (l : list A) (x : A) : Prop :=
  exists l1 l2, l = l1 ++ x :: l2 /\ P x /\ Forall (fun y => ~ P y) l1.

(** [x] is the first item of [l] whose measure is the maximum over [l]. *)
Definition first_max {A} (measure : A -> Z) (l : list A) (x : A) : Prop :=
  exists l1 l2, l = l1 ++ x :: l2
    /\ Forall (fun y => (measure y < measure x)%Z) l1
    /\ Forall (fun y => (measure y <= measure x)%Z) l2.

(** The height of a descriptor, an absent height counting as 0. *)
Definition height_of (fmt : pydict) : Z :=
  match fmt !! "height" with
  | Some (VInt h) => h
  | _ => 0%Z
  end.

(** The sample rate of a descriptor, an absent rate counting as 0. *)
Definition asr_of (fmt : pydict) : Z :=
  match fmt !! "asr" with
  | Some (VInt r) => r
  | _ => 0%Z
  end.

(** The field is an integer or is absent (not [None], not a string). *)
Definition int_or_absent (k : string) (fmt : pydict) : Prop :=
  fmt !! k = None \/ exists z, fmt !! k = Some (VInt z).

(** The field is absent or is [None]. *)
Definition absent_or_null (fmt : pydict) (k : string) : Prop :=
  fmt !! k = None \/ fmt !! k = Some VNone.

(** Every key of [l] is the integer [ikey] gives. *)
Definition int_keyed {A} (key : A -> pyval) (ikey : A -> Z) (l : list A) : Prop :=
  Forall (fun x => key x = VInt (ikey x)) l.

(** Descriptors used in the examples. *)
Definition mkfmt (l : list (string * pyval)) : pydict := list_to_map l.

Definition video_only (format_id : string) (height : pyval) : pydict :=
  mkfmt [("format_id", VStr (lit format_id)); ("ext", VStr (lit "mp4"));
         ("vcodec", VStr (lit "avc1")); ("acodec", none_str);
         ("height", height)].

Definition audio_only (format_id : string) (asr : pyval) : pydict :=
  mkfmt [("format_id", VStr (lit format_id)); ("ext", VStr (lit "m4a"));
         ("acodec", VStr (lit "mp4a")); ("vcodec", none_str);
         ("asr", asr)].

(** A request used in the examples: a standard video link, a clock reading,
    and collaborators that answer the same way to every call. *)
Definition demo_url : str := lit "https://www.bilibili.com/video/BV1xx411c7mD".

Definition demo_now : datetime :=
  {| year := 2024; month := 1; day := 2; hour := 3; minute := 4; second := 5;
     microsecond := 0 |}.

Definition demo_info (fields : list (string * pyval)) (formats : list pydict)
    : video_info :=
  {| vi_fields := list_to_map fields; vi_formats := Some formats |}.

Definition demo_env (info : video_info) (dl : download_outcome)
    (tool : tool_outcome) : environment :=
  {| extract_info := fun _ => Return info;
     fetch_thumbnail := fun _ _ => ThumbSaved;
     ydl_download := fun _ _ _ => dl;
     run_ffmpeg := fun _ => tool;
     os_remove_raises := fun _ => false |}.

Definition download_ok : download_outcome :=
  {| dl_raises := false; dl_leaves_file := true |}.

Definition empty_world : world := {| files := ∅; trace := [] |}.

(** A video-only list with one null height, and an audio-only list with one
    null sample rate. *)
Definition null_height_formats : list pydict :=
  [video_only "80" (VInt 1080); video_only "64" VNone].

Definition null_asr_formats : list pydict :=
  [audio_only "30280" (VInt 48000); audio_only "30216" VNone].

(** One video-only and one audio-only descriptor, both well formed. *)
Definition demo_formats : list pydict :=
  [video_only "80" (VInt 1080); audio_only "30280" (VInt 48000)].

(** A later reading of the clock within the same second. *)
Definition demo_now_later : datetime :=
  {| year := 2024; month := 1; day := 2; hour := 3; minute := 4; second := 5;
     microsecond := 500000 |}.

(** A character that a sanitized title keeps wherever it stands. *)
Definition safe_char (c : char) : bool := negb (illegal_char c) && negb (isspace c).

Definition is_digit (c : char) : bool := (48 <=? c) && (c <=? 57).

(** ** Reading a run: weakest preconditions over [M] *)

Definition wp {A} (m : M A) (Q : result A -> world -> Prop) (w : world) : Prop :=
  Q (fst (m w)) (snd (m w)).

(** Counting the calls of a run. *)
Definition is_ffmpeg (e : event) : bool :=
  match e with EvFfmpeg _ => true | _ => false end.

Definition is_remove (e : event) : bool :=
  match e with EvRemove _ => true | _ => false end.

Definition tool_invocations (t : list event) : nat := length (List.filter is_ffmpeg t).

Definition removals (t : list event) : nat := length (List.filter is_remove t).

(** No illegal character occurs in the title. *)
Definition clean_title (t : str) : Prop := forall c, In c t -> illegal_char c = false.

(** A path under which step 9 may place the final file. *)
Definition is_final_path (cfg : config) (p : str) : Prop :=
  exists prefix, p = final_video_path_of cfg prefix.

(** What a run that has not reached step 13 leaves of the files [fs0] it
    started with, after the calls [evs]: it has called [os.remove] on
    nothing, every file of [fs0] is still there, and so is every file a
    download of this run left. *)
Definition nothing_removed (env : environment) (fs0 : gset str)
    (evs : list event) (fs : gset str) : Prop :=
  removals evs = 0%nat
  /\ fs0 ⊆ fs
  /\ (forall u f o, In (EvDownload u f o) evs ->
                    dl_leaves_file (ydl_download env u f o) = true ->
                    o ∈ fs).

(** The world [w] is the world [w0] after the calls [evs], and [J] holds of
    the calls and of the files on disk. *)
Definition since_start (J : list event -> gset str -> Prop) (w0 w : world)
    (evs : list event) : Prop :=
  trace w = trace w0 ++ evs /\ J evs (files w).

(** The merge tool was run and exited with status zero. *)
Definition merged_ok (env : environment) (evs : list event) : Prop :=
  exists argv wrote, In (EvFfmpeg argv) evs /\ run_ffmpeg env argv = ToolExit 0 wrote.

(** How the world [w] a run ends in relates to the world [w0] it started in:
    after the success page the merge tool has exited with status zero,
    otherwise nothing was removed. *)
Definition cleanup_discipline (env : environment) (w0 : world)
    (r : result response) (w : world) : Prop :=
  exists evs, trace w = trace w0 ++ evs
    /\ match r with
       | Return (SuccessPage _ _ _ _ _) => merged_ok env evs
       | _ => nothing_removed env (files w0) evs (files w)
       end.

(** The merge tool was run with output path [P] and wrote it. *)
Definition written_by_tool (env : environment) (cfg : config) (P : str)
    (evs : list event) : Prop :=
  exists v a rc,
    In (EvFfmpeg (ffmpeg_command cfg v a P)) evs
    /\ run_ffmpeg env (ffmpeg_command cfg v a P) = ToolExit rc true.

(** The call [argv] of the merge tool names a final path as its output and
    two inputs that two downloads of this run, which returned without
    raising, were asked to write. *)
Definition after_both_downloads (env : environment) (cfg : config) (url : str)
    (evs : list event) (argv : list str) : Prop :=
  exists fid1 out1 fid2 out2 prefix,
    argv = ffmpeg_command cfg out1 out2 (final_video_path_of cfg prefix)
    /\ In (EvDownload url fid1 out1) evs
    /\ dl_raises (ydl_download env url fid1 out1) = false
    /\ In (EvDownload url fid2 out2) evs
    /\ dl_raises (ydl_download env url fid2 out2) = false.

(** What the run does to the final names, after the calls [evs], from the
    files [fs0] to the files [fs]: a final path is never removed, it is
    created only by the merge tool writing its output, and the merge tool is
    called only after both downloads. *)
Definition final_name_discipline (env : environment) (cfg : config) (url : str)
    (fs0 : gset str) (evs : list event) (fs : gset str) : Prop :=
  (forall P, is_final_path cfg P ->
     (P ∈ fs0 -> P ∈ fs)
     /\ (P ∈ fs -> P ∈ fs0 \/ written_by_tool env cfg P evs))
  /\ (forall argv, In (EvFfmpeg argv) evs ->
        after_both_downloads env cfg url evs argv).

(** A temporary path of the default configuration starts with the letter t. *)
Definition temp_shape (o : str) : Prop := head o = Some 116.

(** ** Further properties: vocabulary *)

(** A character the sanitizer may drop: illegal, or whitespace. *)
Definition droppable (c : char) : bool := illegal_char c || isspace c.


(** The two link shapes in words: [http] or [https], then [://], the host and
    path [rest], and one or more characters of the class [cls]. *)
Definition url_shape (rest : str) (cls : char -> bool) (url : str) : Prop :=
  exists scheme tail,
    (scheme = lit "http" \/ scheme = lit "https")
    /\ tail <> []
    /\ forallb cls tail = true
    /\ url = scheme ++ lit "://" ++ rest ++ tail.


(** A clock reading as [datetime] builds it, with a four-digit year (the
    years for which every platform prints [%Y] on four digits). *)
Definition plain_datetime (t : datetime) : Prop :=
  1000 <= year t /\ year t <= 9999
  /\ month t < 100 /\ day t < 100
  /\ hour t < 100 /\ minute t < 100 /\ second t < 100.

(** The two readings fall in the same second. *)
Definition same_second (t1 t2 : datetime) : Prop :=
  year t1 = year t2 /\ month t1 = month t2 /\ day t1 = day t2
  /\ hour t1 = hour t2 /\ minute t1 = minute t2 /\ second t1 = second t2.


(** The entry is not expired at any of the readings of the clock. *)
Definition never_expired (cfg : config) (clock : list Z) (e : Janitor.entry) : bool :=
  forallb (fun t => negb (Janitor.expired cfg t e)) clock.

(** No removal of an entry of the folder raises. *)
Definition removable (f : Janitor.folder) : Prop :=
  forall e, Janitor.listed f e -> Janitor.remove_raises e = false.


(** The calls of a run that goes through all its steps, in order; [thumb]
    holds the call of the thumbnail fetch when there is one. *)
Definition steps_of_run (cfg : config) (video_url : str) (thumb : list event)
    (prefix vid aid : str) (vext aext : pyval) : list event :=
  let tv := temp_video_path_of cfg prefix vext in
  let ta := temp_audio_path_of cfg prefix aext in
  EvExtract video_url :: thumb
  ++ [ EvDownload video_url vid tv;
       EvDownload video_url aid ta;
       EvFfmpeg (ffmpeg_command cfg tv ta (final_video_path_of cfg prefix));
       EvRemove tv;
       EvRemove ta ].

Definition is_success (r : response) : bool :=
  match r with SuccessPage _ _ _ _ _ => true | ErrorPage _ => false end.

(** The answer of [index] to the outcome of its [try] block. *)
Definition response_of (r : result response) : response :=
  match r with
  | Return page => page
  | Raise e => ErrorPage (ProcessingFailed e)
  end.

(** The world after [os.remove] was called on the existing path [p]. *)
Definition removed (env : environment) (p : str) (w : world) : world :=
  (if os_remove_raises env p then id else unlink p) (record (EvRemove p) w).

(** The calls [evs] of a run follow the steps: they are the first calls of
    a complete run, all of them exactly when the answer is the success
    page. *)
Definition follows_steps (cfg : config) (now : datetime) (video_url : str)
    (w0 : world) (r : response) (w : world) : Prop :=
  exists thumb vt vid aid vext aext evs,
    let prefix := filename_prefix_of vt (strftime_YmdHMS now) in
    let plan := steps_of_run cfg video_url thumb prefix vid aid vext aext in
    (thumb = [] \/ exists tu, thumb = [EvThumbnail tu (thumbnail_path_of cfg prefix)])
    /\ trace w = trace w0 ++ evs
    /\ evs `prefix_of` plan
    /\ head evs = Some (EvExtract video_url)
    /\ (is_success r = true <-> evs = plan)
    /\ (r = ErrorPage NoUsableStream -> evs = EvExtract video_url :: thumb).

(** The worlds a run goes through when it ends on the success page. *)
Definition success_story (env : environment) (cfg : config) (now : datetime)
    (video_url : str) (w : world) (fn vt : str) (th : option str) (w' : world)
    : Prop :=
  let prefix := filename_prefix_of vt (strftime_YmdHMS now) in
  let thumb := thumbnail_path_of cfg prefix in
  let final := final_video_path_of cfg prefix in
  clean_title vt /\ sanitize_filename vt = vt
  /\ fn = final_video_filename_of prefix
  /\ exists w2 vext aext vid aid (bv ba wrote : bool),
       let tv := temp_video_path_of cfg prefix vext in
       let ta := temp_audio_path_of cfg prefix aext in
       let argv := ffmpeg_command cfg tv ta final in
       let w3 := (if bv then create tv else id) (record (EvDownload video_url vid tv) w2) in
       let w4 := (if ba then create ta else id) (record (EvDownload video_url aid ta) w3) in
       files w ⊆ files w2 /\ files w2 ⊆ {[ thumb ]} ∪ files w
       /\ (th = None \/ (th = Some (prefix ++ lit "_thumb.jpg") /\ thumb ∈ files w2))
       /\ tv ∈ files w4 /\ ta ∈ files w4
       /\ run_ffmpeg env argv = ToolExit 0 wrote
       /\ w' = removed env ta
                 (removed env tv
                    ((if wrote then create final else id) (record (EvFfmpeg argv) w4))).


(** The environment [env] with another thumbnail fetcher. *)
Definition with_thumbnail (env : environment)
    (fetch : pyval -> str -> thumb_outcome) : environment :=
  {| extract_info := extract_info env;
     fetch_thumbnail := fetch;
     ydl_download := ydl_download env;
     run_ffmpeg := run_ffmpeg env;
     os_remove_raises := os_remove_raises env |}.

Definition is_thumbnail_call (e : event) : bool :=
  match e with EvThumbnail _ _ => true | _ => false end.

(** The calls of a trace other than thumbnail fetches. *)
Definition other_calls (t : list event) : list event :=
  List.filter (fun e => negb (is_thumbnail_call e)) t.

(** A path under which [download_thumbnail] may save a thumbnail. *)
Definition is_thumbnail_path (cfg : config) (p : str) : Prop :=
  exists prefix, p = thumbnail_path_of cfg prefix.

(** The page without its thumbnail. *)
Definition forget_thumbnail (r : response) : response :=
  match r with
  | SuccessPage filename video_title _ duration uploader =>
      SuccessPage filename video_title None duration uploader
  | ErrorPage e => ErrorPage e
  end.

(** Two worlds that differ by thumbnails only: the same calls apart from
    thumbnail fetches, and the same files apart from thumbnail paths. *)
Definition same_but_thumbnails (cfg : config) (w1 w2 : world) : Prop :=
  other_calls (trace w1) = other_calls (trace w2)
  /\ forall q, ~ is_thumbnail_path cfg q -> (q ∈ files w1 <-> q ∈ files w2).

(** Two outcomes agree: worlds that differ by thumbnails only, and the same
    exception or results related by [RA]. *)
Definition agree {A} (cfg : config) (RA : A -> A -> Prop)
    (o1 o2 : result A * world) : Prop :=
  same_but_thumbnails cfg (snd o1) (snd o2)
  /\ match fst o1, fst o2 with
     | Return a, Return b => RA a b
     | Raise e1, Raise e2 => e1 = e2
     | _, _ => False
     end.

(** ** The two file routes *)

Inductive route_error : Type :=
  | FileMissing                (* the file does not exist or has expired *)
  | SendFailed (e : exn).      (* the handler of the [try] *)

Inductive route_response : Type :=
  | SendFile (path : str) (as_attachment : bool) (mimetype : option str)
  | RedirectToIndex (error : route_error)
  | NoContent.                 (* [('', 204)] *)

(** [download_file]. [os.path.isfile] is read on the files of the world,
    which lists regular files (directories are not modelled); [send_file]
    answers with the exception it raises, if any. *)
Definition download_file (cfg : config) (send_file : str -> option exn)
    (filename : str) (w : world) : route_response :=
  let file_path := path_join (DOWNLOAD_FOLDER cfg) filename in
  if path_exists w file_path then
    match send_file file_path with
    | None => SendFile file_path true None
    | Some e => RedirectToIndex (SendFailed e)
    end
  else RedirectToIndex FileMissing.

(** [serve_thumbnail] *)
Definition serve_thumbnail (cfg : config) (send_file : str -> option exn)
    (filename : str) (w : world) : route_response :=
  let thumbnail_path := path_join (DOWNLOAD_FOLDER cfg) filename in
  if path_exists w thumbnail_path then
    match send_file thumbnail_path with
    | None => SendFile thumbnail_path false (Some (lit "image/jpeg"))
    | Some _ => NoContent
    end
  else NoContent.

(** The merge tool writes its output whenever it exits with status zero. *)
Definition tool_writes_on_success (env : environment) : Prop :=
  forall argv wrote, run_ffmpeg env argv = ToolExit 0 wrote -> wrote = true.

(** * Properties *)

(** ** The sanitizer *)

Section Sanitizer.

Lemma lstrip_split (s : str) :
  exists w, s = w ++ lstrip s /\ Forall (fun c => isspace c = true) w.
Proof.
  induction s as [|c r IH]; simpl.
  - exists []. split; [reflexivity | constructor].
  - destruct (isspace c) eqn:Hc.
    + destruct IH as (w & Hw & Hall). exists (c :: w). split.
      * simpl. now rewrite <- Hw.
      * now constructor.
    + exists []. split; [reflexivity | constructor].
Qed.

Lemma lstrip_head (s : str) c r : lstrip s = c :: r -> isspace c = false.
Proof.
  induction s as [|x s IH]; simpl; [discriminate|].
  destruct (isspace x) eqn:Hx; [exact IH|].
  intros [= <- _]. exact Hx.
Qed.

Lemma lstrip_fixed (s : str) :
  (forall c r, s = c :: r -> isspace c = false) -> lstrip s = s.
Proof.
  destruct s as [|c r]; simpl; [reflexivity|].
  intros H. now rewrite (H c r eq_refl).
Qed.

(** [rstrip] keeps a prefix. *)
Lemma rstrip_prefix (s : str) : exists w, s = rstrip s ++ w.
Proof.
  unfold rstrip. destruct (lstrip_split (rev s)) as (w & Hw & _).
  exists (rev w). rewrite <- rev_app_distr, <- Hw. symmetry. apply rev_involutive.
Qed.

Lemma lstrip_suffix (s : str) : exists w, s = w ++ lstrip s.
Proof. destruct (lstrip_split s) as (w & Hw & _). now exists w. Qed.

Lemma strip_incl (s : str) c : In c (strip s) -> In c s.
Proof.
  unfold strip. intros Hin.
  destruct (rstrip_prefix (lstrip s)) as (w1 & H1).
  destruct (lstrip_suffix s) as (w2 & H2).
  rewrite H2. apply in_or_app. right. rewrite H1. apply in_or_app. now left.
Qed.

Lemma strip_first (s : str) c r : strip s = c :: r -> isspace c = false.
Proof.
  unfold strip. intros H.
  destruct (rstrip_prefix (lstrip s)) as (w & Hw).
  rewrite H in Hw. simpl in Hw. exact (lstrip_head s c _ Hw).
Qed.

Lemma strip_last (s : str) c r : strip s = r ++ [c] -> isspace c = false.
Proof.
  unfold strip, rstrip. intros H.
  apply (f_equal (@rev N)) in H.
  rewrite rev_involutive, rev_app_distr in H. simpl in H.
  exact (lstrip_head _ _ _ H).
Qed.

Lemma strip_fixed (s : str) :
  (forall c r, s = c :: r -> isspace c = false) ->
  (forall c r, s = r ++ [c] -> isspace c = false) ->
  strip s = s.
Proof.
  intros Hfirst Hlast. unfold strip. rewrite (lstrip_fixed s Hfirst).
  unfold rstrip. rewrite lstrip_fixed; [apply rev_involutive|].
  intros c r Hrev. apply (Hlast c (rev r)).
  rewrite <- (rev_involutive s), Hrev. reflexivity.
Qed.

Lemma strip_idempotent (s : str) : strip (strip s) = strip s.
Proof.
  apply strip_fixed; [apply strip_first | apply strip_last].
Qed.

Lemma remove_illegal_legal (s : str) c :
  In c (remove_illegal s) -> illegal_char c = false.
Proof.
  unfold remove_illegal. intros H. apply filter_In in H as [_ H].
  now apply negb_true_iff in H.
Qed.

Lemma remove_illegal_fixed (s : str) :
  (forall c, In c s -> illegal_char c = false) -> remove_illegal s = s.
Proof.
  unfold remove_illegal. induction s as [|x s IH]; simpl; intros H; [reflexivity|].
  rewrite (H x (or_introl eq_refl)). simpl. f_equal. apply IH.
  intros c Hc. apply H. now right.
Qed.

Lemma sanitize_legal (title : str) c :
  In c (sanitize_filename title) -> illegal_char c = false.
Proof.
  unfold sanitize_filename. intros H.
  apply strip_incl in H. exact (remove_illegal_legal _ _ H).
Qed.

Lemma sanitize_fixed (s : str) :
  (forall c, In c s -> illegal_char c = false) ->
  (forall c r, s = c :: r -> isspace c = false) ->
  (forall c r, s = r ++ [c] -> isspace c = false) ->
  sanitize_filename s = s.
Proof.
  intros Hl Hf Hb. unfold sanitize_filename.
  rewrite (remove_illegal_fixed s Hl). now apply strip_fixed.
Qed.

Lemma illegal_set_spec c : In c illegal_set -> illegal_char c = true.
Proof.
  unfold illegal_set. simpl.
  intros H; repeat (destruct H as [<- | H]; [reflexivity|]); contradiction.
Qed.

End Sanitizer.

(** C8. The sanitizer is a total function on strings; sanitizing twice is
    the same as sanitizing once; no character of the illegal set occurs in
    the result, and the result neither starts nor ends with whitespace. *)
Theorem sanitize_filename_idempotent_clean :
  forall title : str,
    sanitize_filename (sanitize_filename title) = sanitize_filename title
    /\ (forall c, In c illegal_set -> ~ In c (sanitize_filename title))
    /\ (forall c r, sanitize_filename title = c :: r -> isspace c = false)
    /\ (forall c r, sanitize_filename title = r ++ [c] -> isspace c = false).
Proof.
  intros title. split; [|split; [|split]].
  - apply sanitize_fixed.
    + apply sanitize_legal.
    + intros c r. apply strip_first.
    + intros c r. apply strip_last.
  - intros c Hc Hin. apply illegal_set_spec in Hc.
    apply sanitize_legal in Hin. congruence.
  - intros c r. apply strip_first.
  - intros c r. apply strip_last.
Qed.

(** ** Built-ins on integer keys *)

Section IntegerKeys.
Context {A : Type}.
Variable key : A -> pyval.
Variable ikey : A -> Z.

(** Invariant of the loop of [max]: the running maximum is the first maximum
    of what has been visited. *)
Lemma max_loop_first_max (rest : list A) :
  forall (l1 l2 : list A) (m : A),
    key m = VInt (ikey m) ->
    int_keyed key ikey rest ->
    Forall (fun y => (ikey y < ikey m)%Z) l1 ->
    Forall (fun y => (ikey y <= ikey m)%Z) l2 ->
    exists d, max_loop key m (key m) rest = Return d
              /\ first_max ikey (l1 ++ m :: l2 ++ rest) d.
Proof.
  induction rest as [|x rest IH]; intros l1 l2 m Hm Hrest H1 H2.
  - exists m. split; [reflexivity|].
    exists l1, l2. rewrite app_nil_r. auto.
  - inversion Hrest as [|? ? Hx Hrest']; subst.
    cbn [max_loop]. rewrite Hx, Hm. cbn [py_gt bind].
    destruct (Z.gtb (ikey x) (ikey m)) eqn:Hgt.
    + assert (ikey m < ikey x)%Z as Hlt by (apply Z.gtb_lt in Hgt; lia).
      destruct (IH (l1 ++ m :: l2) [] x Hx Hrest') as (d & Hd & Hfm).
      * apply Forall_app. split.
        -- eapply Forall_impl; [exact H1|]. cbn. intros; lia.
        -- constructor; [lia|].
           eapply Forall_impl; [exact H2|]. cbn. intros; lia.
      * constructor.
      * exists d. rewrite <- Hx. split; [exact Hd|].
        cbn [app] in Hfm. now rewrite <- app_assoc in Hfm.
    + assert (ikey x <= ikey m)%Z as Hle.
      { destruct (Z.gtb_spec (ikey x) (ikey m)); [discriminate | lia]. }
      destruct (IH l1 (l2 ++ [x]) m Hm Hrest' H1) as (d & Hd & Hfm).
      * apply Forall_app. split; [exact H2 | now constructor].
      * exists d. split; [rewrite <- Hm; exact Hd|].
        now rewrite <- app_assoc in Hfm.
Qed.

Lemma py_max_first_max (l : list A) :
  l <> [] -> int_keyed key ikey l ->
  exists d, py_max key l = Return d /\ first_max ikey l d.
Proof.
  destruct l as [|m rest]; [congruence|]. intros _ Hl.
  inversion Hl as [|? ? Hm Hrest]; subst.
  apply (max_loop_first_max rest [] [] m Hm Hrest); constructor.
Qed.

(** [next] over a filter whose condition does not raise. *)
Lemma next_or_pure (p : A -> bool) (cond : A -> result bool) (l : list A) (dflt : A) :
  Forall (fun x => cond x = Return (p x)) l ->
  next_or cond l dflt = Return (default dflt (List.find p l)).
Proof.
  induction l as [|x l IH]; intros H; [reflexivity|].
  inversion H as [|? ? Hx Hl]; subst. cbn [next_or List.find].
  rewrite Hx. cbn [bind]. destruct (p x); [reflexivity | exact (IH Hl)].
Qed.

Lemma find_first_such (p : A -> bool) (l : list A) (x : A) :
  List.find p l = Some x -> first_such (fun y => p y = true) l x.
Proof.
  revert x. induction l as [|y l IH]; intros x; cbn [List.find]; [discriminate|].
  destruct (p y) eqn:Hy.
  - intros [= <-]. exists [], l. repeat split; auto.
  - intros Hf. destruct (IH x Hf) as (l1 & l2 & -> & Hx & Hall).
    exists (y :: l1), l2. repeat split; auto.
    constructor; [congruence | exact Hall].
Qed.

Lemma find_none_all (p : A -> bool) (l : list A) :
  List.find p l = None <-> Forall (fun y => p y = false) l.
Proof.
  induction l as [|y l IH]; cbn [List.find].
  - split; [constructor | reflexivity].
  - destruct (p y) eqn:Hy.
    + split; [discriminate|]. intros H. inversion H; congruence.
    + rewrite IH. split; [now constructor | intros H; now inversion H].
Qed.

End IntegerKeys.

(** ** Stream classification *)

Lemma str_eqb_eq (a b : str) : str_eqb a b = true <-> a = b.
Proof.
  revert b. induction a as [|x a IH]; intros [|y b]; cbn; try (split; congruence).
  unfold char_eqb. rewrite andb_true_iff, N.eqb_eq, IH. split.
  - intros [-> ->]. reflexivity.
  - intros [= -> ->]. auto.
Qed.

Lemma py_eq_eq (a b : pyval) : py_eq a b = true <-> a = b.
Proof.
  destruct a, b; cbn; try (split; congruence).
  - rewrite Z.eqb_eq. split; congruence.
  - rewrite str_eqb_eq. split; congruence.
Qed.

Lemma is_pure_video_iff (fmt : pydict) :
  is_pure_video fmt = true
  <-> get fmt "vcodec" <> none_str /\ get fmt "acodec" = none_str.
Proof.
  unfold is_pure_video, py_ne.
  rewrite andb_true_iff, negb_true_iff, <- not_true_iff_false, !py_eq_eq.
  reflexivity.
Qed.

Lemma is_pure_audio_iff (fmt : pydict) :
  is_pure_audio fmt = true
  <-> get fmt "acodec" <> none_str /\ get fmt "vcodec" = none_str.
Proof.
  unfold is_pure_audio, py_ne.
  rewrite andb_true_iff, negb_true_iff, <- not_true_iff_false, !py_eq_eq.
  reflexivity.
Qed.

Lemma absent_or_null_get (fmt : pydict) k : absent_or_null fmt k -> get fmt k = VNone.
Proof. unfold get. intros [-> | ->]; reflexivity. Qed.

(** C9. The two filters compare the codec fields with the exact string
    [none]. A descriptor whose [acodec] is absent or null is never
    video-only; one whose [vcodec] is absent or null and whose [acodec] is
    [none] is video-only; and the same with the two fields exchanged for the
    audio-only filter. *)
Theorem classification_compares_with_none :
  forall fmt : pydict,
    (is_pure_video fmt = true
       <-> get fmt "vcodec" <> none_str /\ get fmt "acodec" = none_str)
    /\ (is_pure_audio fmt = true
       <-> get fmt "acodec" <> none_str /\ get fmt "vcodec" = none_str)
    /\ (absent_or_null fmt "acodec" -> is_pure_video fmt = false)
    /\ (absent_or_null fmt "vcodec" -> fmt !! "acodec" = Some none_str ->
        is_pure_video fmt = true)
    /\ (absent_or_null fmt "vcodec" -> is_pure_audio fmt = false)
    /\ (absent_or_null fmt "acodec" -> fmt !! "vcodec" = Some none_str ->
        is_pure_audio fmt = true).
Proof.
  intros fmt.
  split; [apply is_pure_video_iff|]. split; [apply is_pure_audio_iff|].
  repeat split.
  - intros H. apply not_true_iff_false. rewrite is_pure_video_iff.
    rewrite (absent_or_null_get _ _ H). intros [_ ?]. discriminate.
  - intros H Ha. apply is_pure_video_iff.
    rewrite (absent_or_null_get _ _ H). unfold get. rewrite Ha.
    split; [discriminate | reflexivity].
  - intros H. apply not_true_iff_false. rewrite is_pure_audio_iff.
    rewrite (absent_or_null_get _ _ H). intros [_ ?]. discriminate.
  - intros H Hv. apply is_pure_audio_iff.
    rewrite (absent_or_null_get _ _ H). unfold get. rewrite Hv.
    split; [discriminate | reflexivity].
Qed.

(** ** Stream selection *)

Lemma height_key_int (fmt : pydict) :
  int_or_absent "height" fmt -> height_key fmt = VInt (height_of fmt).
Proof.
  unfold height_key, get_default, height_of.
  intros [-> | [z ->]]; reflexivity.
Qed.

Lemma asr_key_int (fmt : pydict) :
  int_or_absent "asr" fmt -> asr_key fmt = VInt (asr_of fmt).
Proof.
  unfold asr_key, get_default, asr_of.
  intros [-> | [z ->]]; reflexivity.
Qed.

Lemma height_test_int (fmt : pydict) :
  int_or_absent "height" fmt ->
  py_eq (get fmt "height") (VInt 1080) = Z.eqb (height_of fmt) 1080.
Proof.
  unfold get, height_of. intros [-> | [z ->]]; reflexivity.
Qed.

Lemma asr_test_int (cfg : config) (fmt : pydict) :
  int_or_absent "asr" fmt ->
  py_ge (get_default fmt "asr" (VInt 0)) (VInt (AUDIO_PREFERRED_ASR cfg))
  = Return (Z.geb (asr_of fmt) (AUDIO_PREFERRED_ASR cfg)).
Proof.
  unfold get_default, asr_of. intros [-> | [z ->]]; reflexivity.
Qed.

(** On integer (or absent) heights step 7 is the rule of the
    specification: the first descriptor of height 1080, else the first one
    of maximum height. *)
Lemma select_video_int_heights (pv : list pydict) :
  pv <> [] ->
  Forall (int_or_absent "height") pv ->
  exists d, select_video pv = Return d
    /\ (Exists (fun f => height_of f = 1080%Z) pv ->
        first_such (fun f => height_of f = 1080%Z) pv d)
    /\ (Forall (fun f => height_of f <> 1080%Z) pv ->
        first_max height_of pv d).
Proof.
  intros Hne Hint.
  destruct (py_max_first_max height_key height_of pv Hne) as (m & Hm & Hfm).
  { eapply Forall_impl; [exact Hint|]. apply height_key_int. }
  unfold select_video. rewrite Hm. cbn [bind].
  rewrite (next_or_pure (fun f => Z.eqb (height_of f) 1080)).
  2:{ eapply Forall_impl; [exact Hint|]. cbn. intros f Hf.
      now rewrite height_test_int. }
  destruct (List.find _ pv) as [x|] eqn:Hfind; cbn [default].
  - exists x. split; [reflexivity|]. split.
    + intros _. apply find_first_such in Hfind.
      destruct Hfind as (l1 & l2 & -> & Hx & Hall).
      exists l1, l2. repeat split; [now apply Z.eqb_eq|].
      eapply Forall_impl; [exact Hall|]. cbn. intros y Hy. now rewrite Z.eqb_eq in Hy.
    + intros Hall. apply find_first_such in Hfind.
      destruct Hfind as (l1 & l2 & -> & Hx & _).
      apply Forall_app in Hall as [_ Hall]. inversion Hall as [|? ? Hn _]; subst.
      apply Z.eqb_eq in Hx. contradiction.
  - exists m. split; [reflexivity|]. split; [|intros _; exact Hfm].
    intros Hex. apply find_none_all in Hfind.
    apply Exists_exists in Hex as (f & Hin & Hf).
    rewrite Forall_forall in Hfind. specialize (Hfind f Hin).
    apply Z.eqb_neq in Hfind. contradiction.
Qed.

(** On integer (or absent) sample rates step 8 is the rule of the
    specification: the first descriptor at or above the preferred rate, else
    the first one of maximum rate. *)
Lemma select_audio_int_rates (cfg : config) (pa : list pydict) :
  pa <> [] ->
  Forall (int_or_absent "asr") pa ->
  exists d, select_audio cfg pa = Return d
    /\ (Exists (fun f => (AUDIO_PREFERRED_ASR cfg <= asr_of f)%Z) pa ->
        first_such (fun f => (AUDIO_PREFERRED_ASR cfg <= asr_of f)%Z) pa d)
    /\ (Forall (fun f => (asr_of f < AUDIO_PREFERRED_ASR cfg)%Z) pa ->
        first_max asr_of pa d).
Proof.
  intros Hne Hint.
  destruct (py_max_first_max asr_key asr_of pa Hne) as (m & Hm & Hfm).
  { eapply Forall_impl; [exact Hint|]. apply asr_key_int. }
  unfold select_audio. rewrite Hm. cbn [bind].
  rewrite (next_or_pure (fun f => Z.geb (asr_of f) (AUDIO_PREFERRED_ASR cfg))).
  2:{ eapply Forall_impl; [exact Hint|]. cbn. intros f Hf.
      now apply asr_test_int. }
  destruct (List.find _ pa) as [x|] eqn:Hfind; cbn [default].
  - exists x. split; [reflexivity|]. split.
    + intros _. apply find_first_such in Hfind.
      destruct Hfind as (l1 & l2 & -> & Hx & Hall).
      exists l1, l2. repeat split; [apply Z.geb_le in Hx; lia|].
      eapply Forall_impl; [exact Hall|]. cbn. intros y Hy Hle.
      apply Hy. apply Z.geb_le. lia.
    + intros Hall. apply find_first_such in Hfind.
      destruct Hfind as (l1 & l2 & -> & Hx & _).
      apply Forall_app in Hall as [_ Hall]. inversion Hall as [|? ? Hn _]; subst.
      apply Z.geb_le in Hx. lia.
  - exists m. split; [reflexivity|]. split; [|intros _; exact Hfm].
    intros Hex. apply find_none_all in Hfind.
    apply Exists_exists in Hex as (f & Hin & Hf).
    rewrite Forall_forall in Hfind. specialize (Hfind f Hin).
    destruct (Z.geb_spec (asr_of f) (AUDIO_PREFERRED_ASR cfg)); [discriminate | lia].
Qed.

(** An instance of the rule of step 7: with heights 720 and 1080 the second
    descriptor is selected. *)
Lemma select_video_int_heights_witness :
  exists d,
    select_video [video_only "64" (VInt 720); video_only "80" (VInt 1080)] = Return d
    /\ (Exists (fun f => height_of f = 1080%Z)
          [video_only "64" (VInt 720); video_only "80" (VInt 1080)] ->
        first_such (fun f => height_of f = 1080%Z)
          [video_only "64" (VInt 720); video_only "80" (VInt 1080)] d)
    /\ (Forall (fun f => height_of f <> 1080%Z)
          [video_only "64" (VInt 720); video_only "80" (VInt 1080)] ->
        first_max height_of
          [video_only "64" (VInt 720); video_only "80" (VInt 1080)] d).
Proof.
  apply select_video_int_heights.
  - discriminate.
  - apply List.Forall_cons; [right; eexists; reflexivity|].
    apply List.Forall_cons; [right; eexists; reflexivity|].
    apply List.Forall_nil.
Defined.

(** An instance of the rule of step 8: with rates 44100 and 22050 and the
    default threshold, the first descriptor of maximum rate is selected. *)
Lemma select_audio_int_rates_witness :
  exists d,
    select_audio app_config
      [audio_only "30216" (VInt 22050); audio_only "30232" (VInt 44100)] = Return d
    /\ (Exists (fun f => (AUDIO_PREFERRED_ASR app_config <= asr_of f)%Z)
          [audio_only "30216" (VInt 22050); audio_only "30232" (VInt 44100)] ->
        first_such (fun f => (AUDIO_PREFERRED_ASR app_config <= asr_of f)%Z)
          [audio_only "30216" (VInt 22050); audio_only "30232" (VInt 44100)] d)
    /\ (Forall (fun f => (asr_of f < AUDIO_PREFERRED_ASR app_config)%Z)
          [audio_only "30216" (VInt 22050); audio_only "30232" (VInt 44100)] ->
        first_max asr_of
          [audio_only "30216" (VInt 22050); audio_only "30232" (VInt 44100)] d).
Proof.
  apply select_audio_int_rates.
  - discriminate.
  - apply List.Forall_cons; [right; eexists; reflexivity|].
    apply List.Forall_cons; [right; eexists; reflexivity|].
    apply List.Forall_nil.
Defined.

(** The guard after step 6: with no video-only or no audio-only descriptor
    the request is answered with the no-usable-stream page and neither
    selection runs. *)
Lemma select_streams_guard (cfg : config) (all_formats : list pydict) :
  pure_video_formats all_formats = [] \/ pure_audio_formats all_formats = [] ->
  select_streams cfg all_formats = Return NoStream.
Proof.
  unfold select_streams. intros [-> | ->]; [reflexivity|].
  now destruct (pure_video_formats all_formats).
Qed.

(** C1. On a video-only list that holds a descriptor of height 1080 and a
    descriptor whose height is null, step 7 raises [TypeError] (the default
    of [next], [max] over the heights, is computed first and compares
    [None] with an integer), and the request is answered with the generic
    failure page: no descriptor is selected. *)
Theorem select_video_null_height_raises :
  pure_video_formats null_height_formats = null_height_formats
  /\ Exists (fun f => height_of f = 1080%Z) null_height_formats
  /\ select_video null_height_formats = Raise TypeError
  /\ fst (index_post
            (demo_env (demo_info [("title", VStr (lit "clip"))]
                         (null_height_formats ++ [audio_only "30280" (VInt 48000)]))
               download_ok (ToolExit 0 true))
            app_config demo_now (Some demo_url) empty_world)
     = ErrorPage (ProcessingFailed TypeError).
Proof.
  split; [vm_compute; reflexivity|].
  split; [left; vm_compute; reflexivity|].
  split; vm_compute; reflexivity.
Qed.

(** C2. On an audio-only list that holds a descriptor at 48000 Hz and a
    descriptor whose sample rate is null, step 8 raises [TypeError], and the
    request is answered with the generic failure page: no descriptor is
    selected. *)
Theorem select_audio_null_asr_raises :
  pure_audio_formats null_asr_formats = null_asr_formats
  /\ Exists (fun f => (AUDIO_PREFERRED_ASR app_config <= asr_of f)%Z) null_asr_formats
  /\ select_audio app_config null_asr_formats = Raise TypeError
  /\ select_audio app_config [audio_only "30216" VNone] = Raise TypeError
  /\ fst (index_post
            (demo_env (demo_info [("title", VStr (lit "clip"))]
                         (video_only "80" (VInt 1080) :: null_asr_formats))
               download_ok (ToolExit 0 true))
            app_config demo_now (Some demo_url) empty_world)
     = ErrorPage (ProcessingFailed TypeError).
Proof.
  split; [vm_compute; reflexivity|].
  split; [left; vm_compute; discriminate|].
  repeat split; vm_compute; reflexivity.
Qed.

(** An instance of C9: a descriptor with [acodec] equal to [none] and no
    [vcodec] field is video-only. *)
Lemma classification_compares_with_none_witness :
  absent_or_null (mkfmt [("acodec", none_str)]) "vcodec"
  /\ mkfmt [("acodec", none_str)] !! "acodec" = Some none_str
  /\ is_pure_video (mkfmt [("acodec", none_str)]) = true.
Proof.
  assert (absent_or_null (mkfmt [("acodec", none_str)]) "vcodec") as Hv
    by (left; reflexivity).
  assert (mkfmt [("acodec", none_str)] !! "acodec" = Some none_str) as Ha
    by reflexivity.
  split; [exact Hv|]. split; [exact Ha|].
  exact (proj1 (proj2 (proj2 (proj2
           (classification_compares_with_none (mkfmt [("acodec", none_str)])))))
           Hv Ha).
Defined.

(** ** Timestamps and file names *)

Lemma strftime_drops_microsecond (y mo d h mi sec us1 us2 : N) :
  strftime_YmdHMS {| year := y; month := mo; day := d; hour := h; minute := mi;
                     second := sec; microsecond := us1 |}
  = strftime_YmdHMS {| year := y; month := mo; day := d; hour := h; minute := mi;
                       second := sec; microsecond := us2 |}.
Proof. reflexivity. Qed.

(** The fuel of [decimal] is enough: the digits denote the number. *)
Lemma digits_fuel_value (fuel : nat) :
  forall n acc, n < 2 ^ N.of_nat fuel ->
    exists ds, digits_fuel fuel n acc = ds ++ acc /\ digits_value ds = n.
Proof.
  induction fuel as [|f IH]; intros n acc Hn.
  - exists []. split; [reflexivity|]. cbn in Hn. unfold digits_value. cbn. lia.
  - cbn [digits_fuel].
    assert (n = 10 * (n / 10) + n mod 10) as Hdiv by (apply N.div_mod; lia).
    assert (n mod 10 < 10) as Hmod by (apply N.mod_lt; lia).
    set (q := n / 10) in *. set (m := n mod 10) in *. clearbody q m.
    destruct (N.eqb_spec q 0) as [Hq|Hq].
    + exists [48 + m]. split; [reflexivity|]. unfold digits_value. cbn. lia.
    + destruct (IH q ((48 + m) :: acc)) as (ds & Hds & Hval).
      { rewrite Nat2N.inj_succ, N.pow_succ_r' in Hn. lia. }
      exists (ds ++ [48 + m]). split.
      * rewrite Hds, <- app_assoc. reflexivity.
      * unfold digits_value in *. rewrite fold_left_app, Hval. cbn. lia.
Qed.

Lemma decimal_value (n : N) : digits_value (decimal n) = n.
Proof.
  unfold decimal.
  destruct (digits_fuel_value (S (N.to_nat (N.log2 n))) n []) as (ds & -> & Hval).
  - rewrite Nat2N.inj_succ, N2Nat.id.
    destruct n as [|p]; [reflexivity|]. apply N.log2_spec. lia.
  - now rewrite app_nil_r.
Qed.

(** C3. The timestamp does not print the microseconds, so two runs on the
    same title whose clock readings fall in the same second derive the same
    temporary paths. Two requests for the same link, read off the clock at
    two different instants of the same second, show it: the second run
    repeats the calls of the first, downloads included, on the same file
    names. *)
Theorem temp_paths_collide_within_one_second :
  (forall cfg title ext y mo d h mi sec us1 us2,
     let t1 := {| year := y; month := mo; day := d; hour := h; minute := mi;
                  second := sec; microsecond := us1 |} in
     let t2 := {| year := y; month := mo; day := d; hour := h; minute := mi;
                  second := sec; microsecond := us2 |} in
     temp_video_path_of cfg (filename_prefix_of title (strftime_YmdHMS t1)) ext
     = temp_video_path_of cfg (filename_prefix_of title (strftime_YmdHMS t2)) ext
     /\ temp_audio_path_of cfg (filename_prefix_of title (strftime_YmdHMS t1)) ext
        = temp_audio_path_of cfg (filename_prefix_of title (strftime_YmdHMS t2)) ext)
  /\ let env := demo_env (demo_info [("title", VStr (lit "clip"))] demo_formats)
                  download_ok (ToolExit 0 true) in
     let w1 := snd (index_post env app_config demo_now (Some demo_url) empty_world) in
     let w2 := snd (index_post env app_config demo_now_later (Some demo_url) w1) in
     demo_now <> demo_now_later
     /\ trace w2 = trace w1 ++ trace w1
     /\ In (EvDownload demo_url (lit "80") (lit "temp/clip_20240102030405_video.mp4"))
          (trace w1)
     /\ In (EvDownload demo_url (lit "30280") (lit "temp/clip_20240102030405_audio.m4a"))
          (trace w1).
Proof.
  split.
  - intros. split; reflexivity.
  - cbv zeta. split; [discriminate|].
    split; [vm_compute; reflexivity|].
    split; vm_compute; tauto.
Qed.

Lemma digits_fuel_digits (fuel : nat) :
  forall n acc, Forall (fun c => is_digit c = true) acc ->
                Forall (fun c => is_digit c = true) (digits_fuel fuel n acc).
Proof.
  induction fuel as [|f IH]; intros n acc Hacc; cbn [digits_fuel]; [exact Hacc|].
  assert (Forall (fun c => is_digit c = true) ((48 + n mod 10) :: acc)) as Hacc'.
  { constructor; [|exact Hacc]. unfold is_digit.
    assert (n mod 10 < 10) by (apply N.mod_lt; lia).
    set (m := n mod 10) in *. clearbody m.
    apply andb_true_iff. split; apply N.leb_le; lia. }
  destruct (n / 10 =? 0); [exact Hacc' | apply IH; exact Hacc'].
Qed.

Lemma zero_pad_digits (w : nat) (n : N) :
  Forall (fun c => is_digit c = true) (zero_pad w n).
Proof.
  unfold zero_pad, decimal. apply Forall_app. split.
  - apply Forall_forall. intros c Hc. apply list_elem_of_In, repeat_spec in Hc.
    now subst.
  - apply digits_fuel_digits. constructor.
Qed.

Lemma strftime_digits (now : datetime) :
  Forall (fun c => is_digit c = true) (strftime_YmdHMS now).
Proof.
  unfold strftime_YmdHMS.
  repeat (apply Forall_app_2; [apply zero_pad_digits|]). apply zero_pad_digits.
Qed.

Lemma digit_safe (c : char) : is_digit c = true -> safe_char c = true.
Proof.
  unfold is_digit. rewrite andb_true_iff, !N.leb_le. intros [Hlo Hhi].
  assert (In c [48; 49; 50; 51; 52; 53; 54; 55; 56; 57]) as Hin.
  { assert (c = 48 \/ c = 49 \/ c = 50 \/ c = 51 \/ c = 52 \/ c = 53 \/ c = 54
            \/ c = 55 \/ c = 56 \/ c = 57) as Hc by lia.
    cbn [In]. intuition auto. }
  cbn [In] in Hin.
  repeat (destruct Hin as [<- | Hin]; [reflexivity|]). contradiction.
Qed.

(** A string made of safe characters is its own sanitized form. *)
Lemma sanitize_safe (s : str) :
  Forall (fun c => safe_char c = true) s -> sanitize_filename s = s.
Proof.
  intros Hall. rewrite Forall_forall in Hall.
  assert (forall c, In c s -> illegal_char c = false /\ isspace c = false) as H.
  { intros c Hc. apply list_elem_of_In in Hc. specialize (Hall c Hc).
    unfold safe_char in Hall. apply andb_true_iff in Hall as [H1 H2].
    now rewrite negb_true_iff in H1, H2. }
  apply sanitize_fixed.
  - intros c Hc. apply H, Hc.
  - intros c r ->. apply H. now left.
  - intros c r ->. apply H. apply in_or_app. right. now left.
Qed.

Lemma placeholder_title_kept (now : datetime) :
  sanitize_filename (lit "video_" ++ strftime_YmdHMS now)
  = lit "video_" ++ strftime_YmdHMS now.
Proof.
  apply sanitize_safe, Forall_app. split.
  - vm_compute. repeat constructor.
  - eapply Forall_impl; [apply strftime_digits|]. apply digit_safe.
Qed.

(** C5, as the code has it. The placeholder [video_<timestamp>] is the title
    exactly when the resolved metadata has no [title] field; a title string
    that is present is replaced by its sanitized form, which is the title
    component of the file name prefix even when it is empty. *)
Theorem placeholder_title_only_when_absent :
  forall (fields : pydict) (now : datetime),
    let timestamp := strftime_YmdHMS now in
    (fields !! "title" = None ->
       video_title_of fields timestamp = Return (lit "video_" ++ timestamp))
    /\ (forall s, fields !! "title" = Some (VStr s) ->
          video_title_of fields timestamp = Return (sanitize_filename s)
          /\ filename_prefix_of (sanitize_filename s) timestamp
             = sanitize_filename s ++ lit "_" ++ timestamp).
Proof.
  intros fields now timestamp. unfold video_title_of, get_default. split.
  - intros ->. cbn [default call_sanitize_filename].
    unfold timestamp. now rewrite placeholder_title_kept.
  - intros s ->. split; reflexivity.
Qed.

(** An instance of C5 as the code has it: metadata without a title. *)
Lemma placeholder_title_only_when_absent_witness :
  (∅ : pydict) !! "title" = None
  /\ video_title_of ∅ (strftime_YmdHMS demo_now)
     = Return (lit "video_20240102030405").
Proof.
  split; [reflexivity|].
  exact (proj1 (placeholder_title_only_when_absent ∅ demo_now) eq_refl).
Defined.

(** C5 fails as stated: a title made of illegal characters and blanks is
    resolved, sanitizes to the empty string, and no placeholder replaces it;
    the run succeeds with an empty title and the file name
    [_20240102030405.mp4]. *)
Lemma empty_sanitized_title_not_replaced :
  let fields : pydict := mkfmt [("title", VStr (lit " ?:*| "))] in
  video_title_of fields (strftime_YmdHMS demo_now) = Return []
  /\ filename_prefix_of [] (strftime_YmdHMS demo_now) = lit "_20240102030405"
  /\ fst (index_post
            (demo_env (demo_info [("title", VStr (lit " ?:*| "))] demo_formats)
               download_ok (ToolExit 0 true))
            app_config demo_now (Some demo_url) empty_world)
     = SuccessPage (lit "_20240102030405.mp4") [] None (VInt 0)
         (VStr unknown_uploader).
Proof.
  cbv zeta. repeat split; vm_compute; reflexivity.
Qed.

(** ** Rules for reading a run *)

Lemma wp_bind {A B} (m : M A) (k : A -> M B) Q w :
  wp m (fun r w' => match r with
                    | Return a => wp (k a) Q w'
                    | Raise e => Q (Raise e) w'
                    end) w ->
  wp (bindM m k) Q w.
Proof.
  unfold wp, bindM. destruct (m w) as [[a|e] w']; cbn; auto.
Qed.

Lemma wp_lift_bind {A B} (r : result A) (k : A -> M B) Q w :
  match r with
  | Return a => wp (k a) Q w
  | Raise e => Q (Raise e) w
  end ->
  wp (bindM (lift r) k) Q w.
Proof. destruct r; auto. Qed.

Lemma wp_effect_bind {B} (f : world -> world) (k : unit -> M B) Q w :
  wp (k tt) Q (f w) -> wp (bindM (effect f) k) Q w.
Proof. auto. Qed.

Lemma wp_ret {A} (a : A) Q w : Q (Return a) w -> wp (ret a) Q w.
Proof. auto. Qed.

Lemma wp_throw {A} (e : exn) (Q : result A -> world -> Prop) w :
  Q (Raise e) w -> wp (throw e) Q w.
Proof. auto. Qed.

Lemma trace_maybe_create (b : bool) p w :
  trace ((if b then create p else id) w) = trace w.
Proof. now destruct b. Qed.

Lemma video_title_clean (fields : pydict) ts vt :
  video_title_of fields ts = Return vt -> clean_title vt.
Proof.
  unfold video_title_of. destruct (get_default _ _ _) as [| |s]; try discriminate.
  intros [= <-] c. apply sanitize_legal.
Qed.

(** ** The run up to the merge

    A run is followed through the calls [evs] it has made since the world
    [w0] it started in and the files on disk. Whatever property [J] of the
    two is kept by the call to the extractor, by the thumbnail fetch and by
    a download to a temporary path is kept until step 12; the run leaves the
    [try] block early only by an exception or by the no-usable-stream
    answer, and it reaches step 12 only after both downloads have returned
    without raising. *)

Section RunUntilMerge.
Variable env : environment.
Variable cfg : config.
Variable now : datetime.
Variable video_url : str.
Variable w0 : world.
Variable J : list event -> gset str -> Prop.
Variable temp_shape : str -> Prop.

Hypothesis J_extract : forall evs fs, J evs fs -> J (evs ++ [EvExtract video_url]) fs.
Hypothesis J_thumb : forall url prefix (b : bool) evs fs,
  J evs fs ->
  J (evs ++ [EvThumbnail url (thumbnail_path_of cfg prefix)])
    (if b then {[ thumbnail_path_of cfg prefix ]} ∪ fs else fs).
Hypothesis J_download : forall fid o evs fs,
  temp_shape o -> J evs fs ->
  J (evs ++ [EvDownload video_url fid o])
    (if dl_leaves_file (ydl_download env video_url fid o) then {[ o ]} ∪ fs else fs).
Hypothesis temp_shape_video : forall vt ts ext,
  clean_title vt -> temp_shape (temp_video_path_of cfg (filename_prefix_of vt ts) ext).
Hypothesis temp_shape_audio : forall vt ts ext,
  clean_title vt -> temp_shape (temp_audio_path_of cfg (filename_prefix_of vt ts) ext).

Local Abbreviation since := (since_start J w0).

Variable Q : result response -> world -> Prop.
Hypothesis Q_raise : forall e w evs, since w evs -> Q (Raise e) w.
Hypothesis Q_nostream :
  forall w evs, since w evs -> Q (Return (ErrorPage NoUsableStream)) w.
Hypothesis Q_merge :
  forall w vt thumb dur upl vext aext fid1 fid2 pre,
    clean_title vt ->
    let prefix := filename_prefix_of vt (strftime_YmdHMS now) in
    let tv := temp_video_path_of cfg prefix vext in
    let ta := temp_audio_path_of cfg prefix aext in
    since w (pre ++ [EvDownload video_url fid1 tv; EvDownload video_url fid2 ta]) ->
    dl_raises (ydl_download env video_url fid1 tv) = false ->
    dl_raises (ydl_download env video_url fid2 ta) = false ->
    wp (merge_and_finish env cfg tv ta (final_video_filename_of prefix)
          (final_video_path_of cfg prefix) vt thumb dur upl) Q w.

Lemma since_record e w evs fs :
  trace w = trace w0 ++ evs -> J (evs ++ [e]) fs -> fs = files w ->
  since (record e w) (evs ++ [e]).
Proof.
  intros Ht HJ ->. split; [|exact HJ].
  cbn. now rewrite Ht, <- app_assoc.
Qed.

Lemma since_record_create e (b : bool) p w evs :
  trace w = trace w0 ++ evs ->
  J (evs ++ [e]) (if b then {[ p ]} ∪ files w else files w) ->
  since ((if b then create p else id) (record e w)) (evs ++ [e]).
Proof.
  intros Ht HJ. split.
  - rewrite trace_maybe_create. cbn. now rewrite Ht, <- app_assoc.
  - now destruct b.
Qed.

Lemma download_thumbnail_keeps url prefix (R : result (option str) -> world -> Prop)
    w evs :
  since w evs ->
  (forall r w' evs', since w' evs' -> R (Return r) w') ->
  wp (download_thumbnail env cfg url prefix) R w.
Proof.
  intros [Ht HJ] HR. unfold download_thumbnail.
  apply wp_effect_bind.
  destruct (fetch_thumbnail env url (thumbnail_path_of cfg prefix)) as [|[|]].
  - eapply HR. apply (since_record_create _ true); [exact Ht|].
    now apply (J_thumb url prefix true).
  - eapply HR. apply (since_record_create _ true); [exact Ht|].
    now apply (J_thumb url prefix true).
  - eapply HR. apply (since_record_create _ false []); [exact Ht|].
    now apply (J_thumb url prefix false).
Qed.

Lemma thumbnail_step_keeps url prefix (R : result (option str) -> world -> Prop)
    w evs :
  since w evs ->
  (forall r w' evs', since w' evs' -> R (Return r) w') ->
  wp (if truthy url then download_thumbnail env cfg url prefix else ret None) R w.
Proof.
  intros HJ HR. destruct (truthy url).
  - now apply (download_thumbnail_keeps url prefix R w evs).
  - apply wp_ret. now apply (HR None w evs).
Qed.

Lemma download_step_keeps fid o (R : result unit -> world -> Prop) w evs :
  temp_shape o -> since w evs ->
  (forall e w', since w' (evs ++ [EvDownload video_url fid o]) -> R (Raise e) w') ->
  (forall w', since w' (evs ++ [EvDownload video_url fid o]) ->
              dl_raises (ydl_download env video_url fid o) = false ->
              R (Return tt) w') ->
  wp (ydl_download_to env video_url fid o) R w.
Proof.
  intros Ho [Ht HJ] HRaise HRet. unfold ydl_download_to.
  apply wp_effect_bind.
  pose proof (since_record_create (EvDownload video_url fid o) _ o w evs Ht
                (J_download fid o evs (files w) Ho HJ)) as HJ'.
  destruct (ydl_download env video_url fid o) as [raises leaves].
  cbn [dl_raises dl_leaves_file] in *.
  destruct leaves, raises; unfold wp; cbn [bindM effect throw ret fst snd];
    first [ apply HRaise; exact HJ' | apply HRet; [exact HJ' | reflexivity] ].
Qed.

Lemma index_try_until_merge w evs :
  since w evs -> wp (index_try env cfg now video_url) Q w.
Proof.
  intros [Ht HJ]. unfold index_try.
  apply wp_effect_bind.
  pose proof (since_record (EvExtract video_url) w evs _ Ht
                (J_extract _ _ HJ) eq_refl) as H0.
  set (w1 := record (EvExtract video_url) w) in *. clearbody w1. clear w Ht HJ.
  apply wp_lift_bind. destruct (extract_info env video_url) as [info|e]; [|eauto].
  apply wp_lift_bind.
  destruct (video_title_of _ _) as [vt|e] eqn:Hvt; [|eauto].
  apply video_title_clean in Hvt.
  apply wp_bind, (thumbnail_step_keeps _ _ _ _ _ H0).
  clear w1 evs H0. intros thumb w evs H. cbv beta iota.
  apply wp_lift_bind. destruct (select_streams _ _) as [[|selv sela]|e];
    [apply wp_ret; eauto| |eauto].
  apply wp_lift_bind. destruct (getitem selv "ext") as [vext|e]; [|eauto].
  apply wp_lift_bind. destruct (getitem sela "ext") as [aext|e]; [|eauto].
  apply wp_lift_bind. destruct (getitem selv "format_id") as [vid|e]; [|eauto].
  apply wp_bind, (download_step_keeps _ _ _ w evs (temp_shape_video _ _ _ Hvt) H);
    [eauto|].
  intros w1 H1 Hr1. cbv beta iota.
  apply wp_lift_bind. destruct (getitem sela "format_id") as [aid|e]; [|eauto].
  apply wp_bind, (download_step_keeps _ _ _ w1 _ (temp_shape_audio _ _ _ Hvt) H1);
    [eauto|].
  intros w2 H2 Hr2. cbv beta iota.
  rewrite <- app_assoc in H2.
  exact (Q_merge w2 vt thumb _ _ vext aext _ _ evs Hvt H2 Hr1 Hr2).
Qed.

End RunUntilMerge.

(** ** The merger and the removal of temporary files *)

Lemma merge_audio_video_cases env cfg v a o w :
  let argv := ffmpeg_command cfg v a o in
  let r := merge_audio_video env cfg v a o w in
  ((path_exists w v = false \/ path_exists w a = false)
   /\ fst r = false /\ snd r = w)
  \/ (path_exists w v = true /\ path_exists w a = true
      /\ exists b : bool,
           snd r = (if b then create o else id) (record (EvFfmpeg argv) w)
           /\ (b = true <-> exists rc, run_ffmpeg env argv = ToolExit rc true)
           /\ (fst r = true <-> exists wrote, run_ffmpeg env argv = ToolExit 0 wrote)).
Proof.
  cbv zeta. unfold merge_audio_video.
  destruct (path_exists w v); cbn [negb]; [|left; auto].
  destruct (path_exists w a); cbn [negb]; [|left; auto].
  right. split; [reflexivity|]. split; [reflexivity|].
  destruct (run_ffmpeg env (ffmpeg_command cfg v a o)) as [rc wrote|].
  - exists wrote. split; [|split].
    + destruct (Z.eqb rc 0), wrote; reflexivity.
    + split; [intros ->; eauto | intros [rc' [= _ ->]]; reflexivity].
    + destruct (Z.eqb_spec rc 0) as [->|Hrc]; cbn [negb fst].
      * split; [eauto | reflexivity].
      * split; [discriminate | intros [wrote' [= ? _]]; congruence].
  - exists false. cbn [fst snd]. split; [reflexivity|].
    split; split; try discriminate; intros [? ?]; discriminate.
Qed.

Lemma remove_temp_file_wp env p (R : result unit -> world -> Prop) w :
  (forall w', w' = w \/ w' = record (EvRemove p) w
              \/ w' = unlink p (record (EvRemove p) w) ->
              R (Return tt) w') ->
  wp (remove_temp_file env p) R w.
Proof.
  intros HR. unfold remove_temp_file, wp, bindM, ask_exists.
  cbn [fst snd]. destruct (path_exists w p); cbn [effect fst snd ret].
  - destruct (os_remove_raises env p); cbn; apply HR; auto.
  - apply HR. auto.
Qed.

(** Steps 12 to 14 either raise after a failed merge, leaving the world the
    merger left, or answer with the success page after the two removals. *)
Lemma merge_and_finish_wp env cfg tv ta fn fp vt thumb dur upl
    (R : result response -> world -> Prop) w :
  (fst (merge_audio_video env cfg tv ta fp w) = false ->
   R (Raise RuntimeError) (snd (merge_audio_video env cfg tv ta fp w))) ->
  (fst (merge_audio_video env cfg tv ta fp w) = true ->
   forall w1 w2,
     (w1 = snd (merge_audio_video env cfg tv ta fp w)
      \/ w1 = record (EvRemove tv) (snd (merge_audio_video env cfg tv ta fp w))
      \/ w1 = unlink tv (record (EvRemove tv)
                           (snd (merge_audio_video env cfg tv ta fp w)))) ->
     (w2 = w1 \/ w2 = record (EvRemove ta) w1
      \/ w2 = unlink ta (record (EvRemove ta) w1)) ->
     R (Return (SuccessPage fn vt thumb dur upl)) w2) ->
  wp (merge_and_finish env cfg tv ta fn fp vt thumb dur upl) R w.
Proof.
  intros Hfail Hok. unfold merge_and_finish.
  apply wp_bind. unfold wp at 1.
  destruct (merge_audio_video env cfg tv ta fp w) as [merged wm]; cbn [fst snd] in *.
  destruct merged; cbn [negb].
  - apply wp_bind, remove_temp_file_wp. intros w1 H1. cbv beta iota.
    apply wp_bind, remove_temp_file_wp. intros w2 H2. cbv beta iota.
    apply wp_ret. now apply (Hok eq_refl w1 w2).
  - apply wp_throw. now apply Hfail.
Qed.

(** C6. When either input path does not exist the merger returns failure
    and leaves the world as it was, the tool not having been invoked; when
    both exist it invokes the tool exactly once, and it returns success
    exactly when the tool ran and exited with status zero. *)
Theorem merge_audio_video_contract :
  forall env cfg video_path audio_path output_path w,
    let argv := ffmpeg_command cfg video_path audio_path output_path in
    let r := merge_audio_video env cfg video_path audio_path output_path w in
    (path_exists w video_path = false \/ path_exists w audio_path = false ->
       fst r = false /\ snd r = w
       /\ tool_invocations (trace (snd r)) = tool_invocations (trace w))
    /\ (path_exists w video_path = true -> path_exists w audio_path = true ->
       trace (snd r) = trace w ++ [EvFfmpeg argv]
       /\ tool_invocations (trace (snd r)) = S (tool_invocations (trace w))
       /\ (fst r = true <-> exists wrote, run_ffmpeg env argv = ToolExit 0 wrote)).
Proof.
  intros env cfg v a o w argv r.
  destruct (merge_audio_video_cases env cfg v a o w)
    as [(Hmiss & Hr & Hw) | (Hv & Ha & b & Hw & _ & Hok)]; fold r in Hr, Hw || fold r in Hw, Hok.
  - split.
    + intros _. rewrite Hw. auto.
    + intros Hv Ha. destruct Hmiss; congruence.
  - split.
    + intros [H|H]; congruence.
    + intros _ _. fold argv in Hw, Hok.
      assert (trace (snd r) = trace w ++ [EvFfmpeg argv]) as Ht
        by (rewrite Hw; apply trace_maybe_create).
      split; [exact Ht|]. split; [|exact Hok].
      rewrite Ht. unfold tool_invocations.
      rewrite List.filter_app, length_app. cbn. lia.
Qed.

(** An instance of C6: with no file on disk the merger fails without
    calling the tool. *)
Lemma merge_audio_video_contract_witness :
  path_exists empty_world (lit "temp/v.mp4") = false
  /\ fst (merge_audio_video
            (demo_env (demo_info [] []) download_ok (ToolExit 0 true))
            app_config (lit "temp/v.mp4") (lit "temp/a.m4a")
            (lit "downloads/o.mp4") empty_world) = false.
Proof.
  split; [reflexivity|].
  exact (proj1 (proj1 (merge_audio_video_contract
                         (demo_env (demo_info [] []) download_ok (ToolExit 0 true))
                         app_config (lit "temp/v.mp4") (lit "temp/a.m4a")
                         (lit "downloads/o.mp4") empty_world)
                  (or_introl eq_refl))).
Defined.

(** ** Runs that fail keep what they wrote *)

Lemma removals_app (l1 l2 : list event) :
  removals (l1 ++ l2) = (removals l1 + removals l2)%nat.
Proof. unfold removals. now rewrite List.filter_app, length_app. Qed.

Section FailedRun.
Variable env : environment.
Variable cfg : config.
Variable now : datetime.
Variable video_url : str.
Variable w0 : world.

(** A call that is not a removal, followed or not by the creation of a
    file, keeps the invariant, provided a download that says it left a file
    is followed by that creation. *)
Lemma nothing_removed_step (e : event) (b : bool) p evs fs :
  is_remove e = false ->
  (forall u f o, e = EvDownload u f o ->
                 dl_leaves_file (ydl_download env u f o) = true ->
                 b = true /\ p = o) ->
  nothing_removed env (files w0) evs fs ->
  nothing_removed env (files w0) (evs ++ [e]) (if b then {[ p ]} ∪ fs else fs).
Proof.
  intros He Hdl (Hrm & Hsub & Hleft).
  assert (fs ⊆ (if b then {[ p ]} ∪ fs else fs)) as Hgrow
    by (destruct b; [apply union_subseteq_r | reflexivity]).
  split; [|split].
  - rewrite removals_app, Hrm. unfold removals. cbn. now rewrite He.
  - etransitivity; [exact Hsub | exact Hgrow].
  - intros u f o Hin Hl. apply in_app_or in Hin as [Hin | [-> | []]].
    + apply Hgrow. exact (Hleft u f o Hin Hl).
    + destruct (Hdl u f o eq_refl Hl) as [-> ->].
      now apply elem_of_union_l, elem_of_singleton.
Qed.

Lemma failed_run_post :
  wp (index_try env cfg now video_url) (cleanup_discipline env w0) w0.
Proof.
  apply (index_try_until_merge env cfg now video_url w0
           (nothing_removed env (files w0)) (fun _ => True)) with (evs := []).
  - intros evs fs H.
    apply (nothing_removed_step _ false [] evs fs); [reflexivity | discriminate | exact H].
  - intros url prefix b evs fs H.
    apply nothing_removed_step; [reflexivity | discriminate | exact H].
  - intros fid o evs fs _ H. apply nothing_removed_step; [reflexivity | | exact H].
    intros u f o' [= <- <- <-] Hl. now rewrite Hl.
  - trivial.
  - trivial.
  - intros e w evs [Ht H]. exists evs. auto.
  - intros w evs [Ht H]. exists evs. auto.
  - intros w vt thumb dur upl vext aext fid1 fid2 pre _ prefix tv ta [Ht HJ] _ _.
    set (evs := pre ++ _) in *. clearbody evs.
    pose proof (merge_audio_video_cases env cfg tv ta (final_video_path_of cfg prefix) w)
      as Hcases. cbv zeta in Hcases.
    apply merge_and_finish_wp.
    + intros _.
      destruct Hcases as [(_ & _ & ->) | (_ & _ & b & -> & _ & _)].
      * exists evs. auto.
      * exists (evs ++ [EvFfmpeg (ffmpeg_command cfg tv ta (final_video_path_of cfg prefix))]).
        split.
        -- rewrite trace_maybe_create. cbn. now rewrite Ht, <- app_assoc.
        -- assert (files ((if b then create (final_video_path_of cfg prefix) else id)
                     (record (EvFfmpeg (ffmpeg_command cfg tv ta
                                          (final_video_path_of cfg prefix))) w))
                   = if b then {[ final_video_path_of cfg prefix ]} ∪ files w
                     else files w) as -> by (now destruct b).
           apply nothing_removed_step; [reflexivity | discriminate | exact HJ].
    + intros Htrue w1 w2 H1 H2.
      destruct Hcases as [(_ & Hf & _) | (_ & _ & b & Hw & _ & Hok)]; [congruence|].
      apply Hok in Htrue as [wrote Hrun].
      set (argv := ffmpeg_command cfg tv ta (final_video_path_of cfg prefix)) in *.
      assert (exists e1, trace w1 = trace w ++ [EvFfmpeg argv] ++ e1) as [e1 Ht1].
      { rewrite Hw in H1.
        destruct H1 as [-> | [-> | ->]]; cbn [trace record unlink];
          rewrite trace_maybe_create; cbn [trace record].
        - exists []. now rewrite app_nil_r.
        - exists [EvRemove tv]. now rewrite <- app_assoc.
        - exists [EvRemove tv]. now rewrite <- app_assoc. }
      assert (exists e2, trace w2 = trace w1 ++ e2) as [e2 Ht2].
      { destruct H2 as [-> | [-> | ->]]; cbn [trace record unlink].
        - exists []. now rewrite app_nil_r.
        - now exists [EvRemove ta].
        - now exists [EvRemove ta]. }
      exists (evs ++ ([EvFfmpeg argv] ++ e1) ++ e2). split.
      * rewrite Ht2, Ht1, Ht, <- !app_assoc. reflexivity.
      * exists argv, wrote. split; [|exact Hrun].
        apply in_or_app. right. now left.
  - split; [now rewrite app_nil_r|].
    split; [reflexivity|]. split; [reflexivity|]. intros u f o [].
Qed.

End FailedRun.

(** C10. A run that ends with an error page has called [os.remove] on
    nothing: every file that was on disk is still there, and so is every
    temporary file its downloads left, whether the failure is a failed merge
    or a download that raised. The removals of step 13 only occur in a run
    that ends with the success page, after the merge tool has exited with
    status zero. *)
Theorem temp_cleanup_only_after_successful_merge :
  forall env cfg now form w,
    let out := index_post env cfg now form w in
    exists evs, trace (snd out) = trace w ++ evs
      /\ match fst out with
         | ErrorPage _ => nothing_removed env (files w) evs (files (snd out))
         | SuccessPage _ _ _ _ _ => merged_ok env evs
         end.
Proof.
  intros env cfg now form w out.
  assert (nothing_removed env (files w) [] (files w)) as H0.
  { split; [reflexivity|]. split; [reflexivity|]. intros u f o []. }
  unfold out, index_post.
  destruct (strip (default [] form)) as [|c url].
  { exists []. now rewrite app_nil_r. }
  destruct (is_valid_bilibili_url (c :: url)); cbn [negb].
  2:{ exists []. now rewrite app_nil_r. }
  pose proof (failed_run_post env cfg now (c :: url) w) as H.
  unfold wp in H.
  destruct (index_try env cfg now (c :: url) w) as [[r|e] w'];
    cbn [fst snd] in *; destruct H as (evs & Ht & H); exists evs; auto.
Qed.

(** A failed merge at work: both downloads leave their files, the tool exits
    with status 1 without writing, and the two temporary files are what the
    run leaves on disk. *)
Example failed_merge_keeps_temp_files :
  let env := demo_env (demo_info [("title", VStr (lit "clip"))] demo_formats)
               download_ok (ToolExit 1 false) in
  let out := index_post env app_config demo_now (Some demo_url) empty_world in
  fst out = ErrorPage (ProcessingFailed RuntimeError)
  /\ removals (trace (snd out)) = 0%nat
  /\ path_exists (snd out) (lit "temp/clip_20240102030405_video.mp4") = true
  /\ path_exists (snd out) (lit "temp/clip_20240102030405_audio.m4a") = true.
Proof. cbv zeta. repeat split; vm_compute; reflexivity. Qed.

(** A successful run at work: the final file is there under its name and the
    two temporary files are gone. *)
Example successful_run_removes_temp_files :
  let env := demo_env (demo_info [("title", VStr (lit "clip"))] demo_formats)
               download_ok (ToolExit 0 true) in
  let out := index_post env app_config demo_now (Some demo_url) empty_world in
  fst out = SuccessPage (lit "clip_20240102030405.mp4") (lit "clip") None (VInt 0)
              (VStr unknown_uploader)
  /\ removals (trace (snd out)) = 2%nat
  /\ path_exists (snd out) (lit "downloads/clip_20240102030405.mp4") = true
  /\ path_exists (snd out) (lit "temp/clip_20240102030405_video.mp4") = false
  /\ path_exists (snd out) (lit "temp/clip_20240102030405_audio.m4a") = false.
Proof. cbv zeta. repeat split; vm_compute; reflexivity. Qed.

(** ** Paths *)

Lemma path_join_last (a b : str) c : last b = Some c -> last (path_join a b) = Some c.
Proof.
  intros Hb. unfold path_join.
  destruct (startswith _ b); [exact Hb|].
  destruct (match a with [] => true | _ :: _ => endswith (lit "/") a end);
    rewrite ?last_app, ?Hb; reflexivity.
Qed.

Lemma final_path_last cfg prefix : last (final_video_path_of cfg prefix) = Some 52.
Proof.
  apply path_join_last. unfold final_video_filename_of. now rewrite last_app.
Qed.

Lemma thumbnail_path_last cfg prefix : last (thumbnail_path_of cfg prefix) = Some 103.
Proof. apply path_join_last. now rewrite last_app. Qed.

Lemma thumbnail_not_final cfg prefix :
  ~ is_final_path cfg (thumbnail_path_of cfg prefix).
Proof.
  intros [prefix' H]. pose proof (thumbnail_path_last cfg prefix) as Hl.
  rewrite H, final_path_last in Hl. discriminate.
Qed.

Lemma clean_title_no_slash vt rest :
  clean_title vt -> startswith (lit "/") (vt ++ lit "_" ++ rest) = false.
Proof.
  intros Hvt. destruct vt as [|c r]; [reflexivity|].
  specialize (Hvt c (or_introl eq_refl)).
  change (startswith (lit "/") ((c :: r) ++ lit "_" ++ rest))
    with (char_eqb 47 c && true).
  unfold char_eqb. destruct (N.eqb_spec 47 c) as [<-|_]; [discriminate | reflexivity].
Qed.

Lemma temp_video_path_shape vt ts ext :
  clean_title vt ->
  temp_shape (temp_video_path_of app_config (filename_prefix_of vt ts) ext).
Proof.
  intros Hvt. unfold temp_shape, temp_video_path_of, filename_prefix_of, path_join.
  rewrite <- !app_assoc. now rewrite (clean_title_no_slash vt _ Hvt).
Qed.

Lemma temp_audio_path_shape vt ts ext :
  clean_title vt ->
  temp_shape (temp_audio_path_of app_config (filename_prefix_of vt ts) ext).
Proof.
  intros Hvt. unfold temp_shape, temp_audio_path_of, filename_prefix_of, path_join.
  rewrite <- !app_assoc. now rewrite (clean_title_no_slash vt _ Hvt).
Qed.

Lemma final_path_head prefix :
  head (final_video_path_of app_config prefix) = Some 47
  \/ head (final_video_path_of app_config prefix) = Some 100.
Proof.
  unfold final_video_path_of, path_join.
  destruct (final_video_filename_of prefix) as [|c r]; [now right|].
  cbn [startswith lit map list_ascii_of_string]. unfold char_eqb.
  destruct (N.eqb_spec (N_of_ascii "/") c) as [<-|_]; [now left | now right].
Qed.

Lemma temp_not_final o : temp_shape o -> ~ is_final_path app_config o.
Proof.
  unfold temp_shape. intros Ho [prefix ->].
  destruct (final_path_head prefix) as [H|H]; rewrite H in Ho; discriminate.
Qed.

(** ** The final name *)

Section FinalName.
Variable env : environment.
Variable now : datetime.
Variable video_url : str.
Variable w0 : world.

Local Abbreviation cfg := app_config.
Local Abbreviation D := (final_name_discipline env app_config video_url (files w0)).

Lemma written_by_tool_mono P evs e1 :
  written_by_tool env cfg P evs -> written_by_tool env cfg P (evs ++ e1).
Proof.
  intros (v & a & rc & Hin & Hrun). exists v, a, rc.
  split; [apply in_or_app; now left | exact Hrun].
Qed.

Lemma after_both_downloads_mono argv evs e1 :
  after_both_downloads env cfg video_url evs argv ->
  after_both_downloads env cfg video_url (evs ++ e1) argv.
Proof.
  intros (f1 & o1 & f2 & o2 & prefix & -> & H1 & R1 & H2 & R2).
  exists f1, o1, f2, o2, prefix.
  repeat split; auto; apply in_or_app; now left.
Qed.

(** Calls other than the merge tool, and the creation or removal of a path
    that is not a final path, keep the discipline. *)
Lemma discipline_step evs fs e1 fs' :
  Forall (fun e => is_ffmpeg e = false) e1 ->
  (forall P, is_final_path cfg P -> P ∈ fs' <-> P ∈ fs) ->
  D evs fs -> D (evs ++ e1) fs'.
Proof.
  intros He Hfs [Hfin Htool]. split.
  - intros P HP. destruct (Hfin P HP) as [Hkeep Hnew]. rewrite (Hfs P HP). split.
    + exact Hkeep.
    + intros Hin. destruct (Hnew Hin) as [?|Hw]; [now left|].
      right. now apply written_by_tool_mono.
  - intros argv Hin. apply in_app_or in Hin as [Hin|Hin].
    + now apply after_both_downloads_mono, Htool.
    + rewrite Forall_forall in He. apply list_elem_of_In, He in Hin. discriminate.
Qed.

Lemma maybe_create_not_final (b : bool) (p : str) (fs : gset str) (P : str) :
  ~ is_final_path cfg p -> is_final_path cfg P ->
  P ∈ (if b then {[ p ]} ∪ fs else fs) <-> P ∈ fs.
Proof.
  intros Hp HP. destruct b; [|reflexivity].
  split; [|set_solver]. intros [Heq%elem_of_singleton|?]%elem_of_union; [|assumption].
  subst. contradiction.
Qed.

(** The merger keeps the discipline when it is called on the two paths the
    downloads of this run were asked to write and on a final path. *)
Lemma discipline_merge evs w fid1 tv fid2 ta prefix :
  since_start D w0 w evs ->
  In (EvDownload video_url fid1 tv) evs ->
  dl_raises (ydl_download env video_url fid1 tv) = false ->
  In (EvDownload video_url fid2 ta) evs ->
  dl_raises (ydl_download env video_url fid2 ta) = false ->
  exists em,
    since_start D w0
      (snd (merge_audio_video env cfg tv ta (final_video_path_of cfg prefix) w))
      (evs ++ em).
Proof.
  intros [Ht [Hfin Htool]] Hin1 Hr1 Hin2 Hr2.
  set (fp := final_video_path_of cfg prefix).
  destruct (merge_audio_video_cases env cfg tv ta fp w)
    as [(_ & _ & ->) | (_ & _ & b & -> & Hb & _)].
  { exists []. rewrite app_nil_r. now split. }
  set (argv := ffmpeg_command cfg tv ta fp) in *.
  exists [EvFfmpeg argv]. split.
  { rewrite trace_maybe_create. cbn. now rewrite Ht, <- app_assoc. }
  assert (files ((if b then create fp else id) (record (EvFfmpeg argv) w))
          = if b then {[ fp ]} ∪ files w else files w) as -> by (now destruct b).
  split.
  - intros P HP. destruct (Hfin P HP) as [Hkeep Hnew]. split.
    + intros H0. apply Hkeep in H0. destruct b; [now apply elem_of_union_r | exact H0].
    + intros Hin.
      assert (P ∈ files w \/ (b = true /\ P = fp)) as [Hold | [Hbt ->]].
      { destruct b; [|now left].
        apply elem_of_union in Hin as [->%elem_of_singleton|?]; auto. }
      * destruct (Hnew Hold) as [?|Hw]; [now left|].
        right. now apply written_by_tool_mono.
      * right. apply Hb in Hbt as [rc Hrun]. exists tv, ta, rc.
        split; [apply in_or_app; right; now left | exact Hrun].
  - intros argv' Hin. apply in_app_or in Hin as [Hin | [[= <-] | []]].
    + now apply after_both_downloads_mono, Htool.
    + exists fid1, tv, fid2, ta, prefix.
      repeat split; auto; apply in_or_app; now left.
Qed.

Lemma discipline_remove evs w w' p :
  since_start D w0 w evs ->
  ~ is_final_path cfg p ->
  w' = w \/ w' = record (EvRemove p) w \/ w' = unlink p (record (EvRemove p) w) ->
  exists e1, since_start D w0 w' (evs ++ e1).
Proof.
  intros [Ht HD] Hp [-> | [-> | ->]].
  - exists []. rewrite app_nil_r. now split.
  - exists [EvRemove p]. split; [cbn; now rewrite Ht, <- app_assoc|].
    apply (discipline_step evs (files w)); [now repeat constructor | | exact HD].
    reflexivity.
  - exists [EvRemove p]. split; [cbn; now rewrite Ht, <- app_assoc|].
    apply (discipline_step evs (files w)); [now repeat constructor | | exact HD].
    intros P HP. cbn. split; [now intros [? _]%elem_of_difference|]. intros HPin.
    apply elem_of_difference. split; [exact HPin|].
    intros ->%elem_of_singleton. contradiction.
Qed.

Lemma final_name_post :
  wp (index_try env cfg now video_url)
    (fun _ w => exists evs, since_start D w0 w evs) w0.
Proof.
  apply (index_try_until_merge env cfg now video_url w0 D temp_shape) with (evs := []).
  - intros evs fs H.
    apply (discipline_step evs fs); [now repeat constructor | reflexivity | exact H].
  - intros url prefix b evs fs H.
    apply (discipline_step evs fs); [now repeat constructor | | exact H].
    intros P HP. apply maybe_create_not_final; [apply thumbnail_not_final | exact HP].
  - intros fid o evs fs Ho H.
    apply (discipline_step evs fs); [now repeat constructor | | exact H].
    intros P HP. apply maybe_create_not_final; [now apply temp_not_final | exact HP].
  - apply temp_video_path_shape.
  - apply temp_audio_path_shape.
  - intros e w evs H. now exists evs.
  - intros w evs H. now exists evs.
  - intros w vt thumb dur upl vext aext fid1 fid2 pre Hvt prefix tv ta Hs Hr1 Hr2.
    destruct (discipline_merge _ w fid1 tv fid2 ta prefix Hs) as [em Hm]; auto.
    { apply in_or_app. right. now left. }
    { apply in_or_app. right. right. now left. }
    apply merge_and_finish_wp.
    + intros _. eauto.
    + intros _ w1 w2 H1 H2.
      destruct (discipline_remove _ _ w1 tv Hm) as [e1 Hs1]; auto.
      { apply temp_not_final, temp_video_path_shape, Hvt. }
      destruct (discipline_remove _ _ w2 ta Hs1) as [e2 Hs2]; auto.
      { apply temp_not_final, temp_audio_path_shape, Hvt. }
      eauto.
  - split; [now rewrite app_nil_r|]. split.
    + intros P _. split; auto.
    + intros argv [].
Qed.

End FinalName.

Lemma no_tool_invocation evs argv :
  tool_invocations evs = 0%nat -> ~ In (EvFfmpeg argv) evs.
Proof.
  unfold tool_invocations. intros Hlen Hin.
  assert (In (EvFfmpeg argv) (List.filter is_ffmpeg evs)) as Hf
    by (apply filter_In; split; [exact Hin | reflexivity]).
  destruct (List.filter is_ffmpeg evs); [destruct Hf | discriminate].
Qed.

(** C4, as the code has it. A run never removes a file that stands under a
    final name and never creates one itself: a final path that exists after
    the run and did not before was written by the merge tool, which is given
    the final path as its output and is called only after both downloads
    have returned without raising. In particular a run in which the merge
    tool is not called leaves every final name as it was. *)
Theorem final_name_written_only_by_merge_tool :
  forall env now form w,
    let out := index_post env app_config now form w in
    exists evs, trace (snd out) = trace w ++ evs
      /\ final_name_discipline env app_config (strip (default [] form))
           (files w) evs (files (snd out))
      /\ (tool_invocations evs = 0%nat ->
          forall P, is_final_path app_config P ->
                    P ∈ files (snd out) <-> P ∈ files w).
Proof.
  intros env now form w out.
  assert (exists evs, since_start
            (final_name_discipline env app_config (strip (default [] form)) (files w))
            w (snd out) evs) as (evs & Ht & HD).
  { unfold out, index_post.
    assert (since_start
              (final_name_discipline env app_config (strip (default [] form)) (files w))
              w w []) as Hrefl.
    { split; [now rewrite app_nil_r|]. split.
      - intros P _. split; auto.
      - intros argv []. }
    destruct (strip (default [] form)) as [|c url] eqn:Hurl; [now exists []|].
    destruct (is_valid_bilibili_url (c :: url)); cbn [negb]; [|now exists []].
    pose proof (final_name_post env now (c :: url) w) as H. unfold wp in H.
    destruct (index_try env app_config now (c :: url) w) as [[r|e] w'];
      cbn [fst snd] in *; exact H. }
  exists evs. split; [exact Ht|]. split; [exact HD|].
  intros Hno P HP. destruct HD as [Hfin _]. destruct (Hfin P HP) as [Hkeep Hnew].
  split; [|exact Hkeep].
  intros Hin. destruct (Hnew Hin) as [?|(v & a & rc & Hev & _)]; [assumption|].
  now apply no_tool_invocation in Hev.
Qed.

(** C4 fails as stated: both downloads succeed, the merge tool writes its
    output and exits with status 1; the request is answered with the failure
    page and the file the tool left stands under the final name, where no
    file stood before. *)
Lemma failed_merge_leaves_final_file :
  let env := demo_env (demo_info [("title", VStr (lit "clip"))] demo_formats)
               download_ok (ToolExit 1 true) in
  let out := index_post env app_config demo_now (Some demo_url) empty_world in
  fst out = ErrorPage (ProcessingFailed RuntimeError)
  /\ final_video_path_of app_config
       (filename_prefix_of (lit "clip") (strftime_YmdHMS demo_now))
     = lit "downloads/clip_20240102030405.mp4"
  /\ path_exists empty_world (lit "downloads/clip_20240102030405.mp4") = false
  /\ path_exists (snd out) (lit "downloads/clip_20240102030405.mp4") = true.
Proof.
  cbv zeta. repeat split; vm_compute; reflexivity.
Qed.

(** ** The janitor *)

Import Janitor.

(** An entry is swept exactly when it is a regular file whose age is
    strictly above the threshold. *)
Lemma expired_iff cfg now e :
  expired cfg now e = true
  <-> is_file e = true /\ (MAX_FILE_AGE cfg < now - ctime e)%Z.
Proof.
  unfold expired. rewrite andb_true_iff, Z.gtb_lt. reflexivity.
Qed.

Lemma cleaned_In cfg now l e :
  In e (cleaned cfg now l) <-> In e l /\ expired cfg now e = false.
Proof.
  unfold cleaned. rewrite filter_In, negb_true_iff. reflexivity.
Qed.

Lemma clean_listing_spec cfg now l :
  (clean_listing cfg now l = (cleaned cfg now l, None)
   /\ Forall (fun e => expired cfg now e = true -> remove_raises e = false) l)
  \/ (exists e l1 l2,
        l = l1 ++ e :: l2
        /\ expired cfg now e = true /\ remove_raises e = true
        /\ clean_listing cfg now l = (cleaned cfg now l1 ++ e :: l2, Some OSError)).
Proof.
  induction l as [|e l IH]; [left; split; [reflexivity | constructor]|].
  cbn [clean_listing]. unfold cleaned. cbn [List.filter].
  destruct (expired cfg now e) eqn:He; cbn [negb].
  - destruct (remove_raises e) eqn:Hr.
    + right. exists e, [], l. auto.
    + destruct IH as [[-> Hall] | (e' & l1 & l2 & -> & He' & Hr' & ->)].
      * left. split; [reflexivity|]. constructor; auto.
      * right. exists e', (e :: l1), l2.
        repeat split; auto. unfold cleaned. cbn [List.filter]. now rewrite He.
  - destruct IH as [[-> Hall] | (e' & l1 & l2 & -> & He' & Hr' & ->)].
    + left. split; [reflexivity|]. constructor; [congruence | exact Hall].
    + right. exists e', (e :: l1), l2.
      repeat split; auto. unfold cleaned. cbn [List.filter]. now rewrite He.
Qed.

Lemma clean_folder_spec cfg now f :
  (clean_folder cfg now f = (option_map (cleaned cfg now) f, None))
  \/ (exists e, stopped_at cfg now e f (fst (clean_folder cfg now f))
                /\ snd (clean_folder cfg now f) = Some OSError).
Proof.
  destruct f as [l|]; [|now left]. cbn [clean_folder option_map].
  destruct (clean_listing_spec cfg now l)
    as [[-> _] | (e & l1 & l2 & -> & He & Hr & ->)]; [now left|].
  right. exists e. split; [|reflexivity]. now exists l1, l2.
Qed.

Lemma clean_old_files_log_length cfg clock :
  forall d, length (snd (clean_old_files cfg clock d)) = length clock.
Proof.
  induction clock as [|t later IH]; intros d; [reflexivity|].
  cbn [clean_old_files]. destruct (clean_cycle cfg t d) as [d1 x].
  specialize (IH d1). destruct (clean_old_files cfg later d1) as [d2 log].
  cbn [snd length] in *. now rewrite IH.
Qed.

Lemma swept_keeps cfg now f f' e :
  swept cfg now f f' -> expired cfg now e = false -> listed f e -> listed f' e.
Proof.
  intros -> He (l & -> & Hin). exists (cleaned cfg now l).
  split; [reflexivity|]. now apply cleaned_In.
Qed.

Lemma stopped_keeps cfg now e0 f f' e :
  stopped_at cfg now e0 f f' -> expired cfg now e = false -> listed f e -> listed f' e.
Proof.
  intros (l1 & l2 & -> & _ & _ & ->) He (l & [= <-] & Hin).
  eexists. split; [reflexivity|].
  apply in_app_or in Hin as [Hin|Hin]; apply in_or_app; [left | now right].
  now apply cleaned_In.
Qed.

Lemma stopped_raises cfg now e0 f f' :
  stopped_at cfg now e0 f f' -> listed f e0 /\ remove_raises e0 = true.
Proof.
  intros (l1 & l2 & -> & _ & Hr & _). split; [|exact Hr].
  eexists. split; [reflexivity|]. apply in_or_app. right. now left.
Qed.

(** C7, as the code has it. In one cycle an entry that is not a regular
    file older than the threshold is left in place, a missing folder is
    skipped, and when no removal raises both folders are swept to their end:
    every regular file older than the threshold is gone. A removal that
    raises ends the cycle: the sweep stops at that file, and the entries
    after it, and the temp folder if the failure was in the download folder,
    are left as they were. The handler catches the exception, so the loop
    goes on: it performs one cycle per reading of the clock. *)
Theorem janitor_cycle_stops_at_first_failed_delete :
  forall cfg now d clock,
    let d' := fst (clean_cycle cfg now d) in
    let x := snd (clean_cycle cfg now d) in
    (forall e, expired cfg now e = false ->
       (listed (download_dir d) e -> listed (download_dir d') e)
       /\ (listed (temp_dir d) e -> listed (temp_dir d') e))
    /\ (download_dir d = None -> download_dir d' = None)
    /\ (temp_dir d = None -> temp_dir d' = None)
    /\ match x with
       | None =>
           swept cfg now (download_dir d) (download_dir d')
           /\ swept cfg now (temp_dir d) (temp_dir d')
       | Some _ =>
           exists e,
             (stopped_at cfg now e (download_dir d) (download_dir d')
              /\ temp_dir d' = temp_dir d)
             \/ (swept cfg now (download_dir d) (download_dir d')
                 /\ stopped_at cfg now e (temp_dir d) (temp_dir d'))
       end
    /\ ((forall e, listed (download_dir d) e \/ listed (temp_dir d) e ->
                   remove_raises e = false) -> x = None)
    /\ length (snd (clean_old_files cfg clock d)) = length clock.
Proof.
  intros cfg now [dl tp] clock d' x.
  assert (match x with
          | None => swept cfg now dl (download_dir d') /\ swept cfg now tp (temp_dir d')
          | Some _ =>
              exists e,
                (stopped_at cfg now e dl (download_dir d') /\ temp_dir d' = tp)
                \/ (swept cfg now dl (download_dir d')
                    /\ stopped_at cfg now e tp (temp_dir d'))
          end) as Hshape.
  { unfold x, d', clean_cycle. cbn [download_dir temp_dir].
    destruct (clean_folder_spec cfg now dl) as [Hd | (e & Hstop & Hx)].
    - rewrite Hd.
      destruct (clean_folder_spec cfg now tp) as [Ht | (e & Hstop & Hx)].
      + rewrite Ht. cbn. split; reflexivity.
      + destruct (clean_folder cfg now tp) as [tp' xt]. cbn [fst snd] in *.
        subst xt. cbn. exists e. right. split; [reflexivity | exact Hstop].
    - destruct (clean_folder cfg now dl) as [dl' xd]. cbn [fst snd] in *.
      subst xd. cbn. exists e. left. split; [exact Hstop | reflexivity]. }
  cbn [download_dir temp_dir].
  split; [|split; [|split; [|split; [exact Hshape|split]]]].
  - intros e He. destruct x as [ex|].
    + destruct Hshape as [e0 [[Hs Ht] | [Hs Ht]]].
      * split; [now apply (stopped_keeps cfg now e0) | now rewrite Ht].
      * split; [now apply (swept_keeps cfg now) | now apply (stopped_keeps cfg now e0)].
    + destruct Hshape as [Hs Ht]. split; now apply (swept_keeps cfg now).
  - intros ->. destruct x as [ex|].
    + destruct Hshape as [e0 [[(l1 & l2 & [=] & _) _] | [-> _]]]. reflexivity.
    + destruct Hshape as [-> _]. reflexivity.
  - intros ->. destruct x as [ex|].
    + destruct Hshape as [e0 [[_ ->] | [_ (l1 & l2 & [=] & _)]]]. reflexivity.
    + destruct Hshape as [_ ->]. reflexivity.
  - intros Hno. destruct x as [ex|]; [|reflexivity].
    destruct Hshape as [e0 [[Hs _] | [_ Hs]]];
      apply stopped_raises in Hs as [Hl Hr]; rewrite Hno in Hr; auto; discriminate.
  - apply clean_old_files_log_length.
Qed.

(** C7 fails as stated: the download folder lists a file that cannot be
    removed and then a stale file that can; the first removal raises and the
    cycle ends there, leaving the stale files of both folders in place. *)
Lemma failed_delete_aborts_cycle :
  expired app_config 10000 stale_file = true
  /\ remove_raises stale_file = false
  /\ clean_cycle app_config 10000 demo_disk = (demo_disk, Some OSError).
Proof. repeat split; reflexivity. Qed.

(** A cycle without failure at work: the stale file goes, the fresh file and
    the sub-folder stay, and the missing temp folder is skipped. *)
Example clean_cycle_sweeps :
  let fresh := {| name := lit "fresh.mp4"; is_file := true; ctime := 9000;
                  remove_raises := false |} in
  let sub := {| name := lit "sub"; is_file := false; ctime := 0;
                remove_raises := true |} in
  clean_cycle app_config 10000
    {| download_dir := Some [stale_file; fresh; sub]; temp_dir := None |}
  = ({| download_dir := Some [fresh; sub]; temp_dir := None |}, None).
Proof. reflexivity. Qed.

(** * Further properties of the code *)

(** ** The sanitizer only removes *)

Lemma rstrip_split (s : str) :
  exists w, s = rstrip s ++ w /\ Forall (fun c => isspace c = true) w.
Proof.
  unfold rstrip. destruct (lstrip_split (rev s)) as (w & Hw & Hall).
  exists (rev w). split.
  - rewrite <- rev_app_distr, <- Hw. symmetry. apply rev_involutive.
  - apply Forall_forall. intros c Hc. rewrite Forall_forall in Hall.
    apply Hall. apply list_elem_of_In. apply list_elem_of_In in Hc.
    now apply in_rev.
Qed.

Lemma strip_split (s : str) :
  exists w1 w2, s = w1 ++ strip s ++ w2
    /\ Forall (fun c => isspace c = true) w1
    /\ Forall (fun c => isspace c = true) w2.
Proof.
  destruct (lstrip_split s) as (w1 & H1 & Hall1).
  destruct (rstrip_split (lstrip s)) as (w2 & H2 & Hall2).
  exists w1, w2. unfold strip. rewrite <- H2. auto.
Qed.

Lemma remove_illegal_sublist (s : str) : sublist (remove_illegal s) s.
Proof.
  unfold remove_illegal. induction s as [|c s IH]; cbn [List.filter].
  - constructor.
  - destruct (negb (illegal_char c)); now constructor.
Qed.

Lemma filter_safe_spaces (w : str) :
  Forall (fun c => isspace c = true) w -> List.filter safe_char w = [].
Proof.
  induction 1 as [|c w Hc _ IH]; [reflexivity|]. cbn [List.filter].
  unfold safe_char. rewrite Hc, andb_false_r. exact IH.
Qed.

Lemma filter_safe_remove_illegal (s : str) :
  List.filter safe_char (remove_illegal s) = List.filter safe_char s.
Proof.
  unfold remove_illegal. induction s as [|c s IH]; [reflexivity|].
  cbn [List.filter]. destruct (illegal_char c) eqn:Hc; cbn [negb].
  - assert (safe_char c = false) as -> by (unfold safe_char; now rewrite Hc).
    exact IH.
  - cbn [List.filter]. now rewrite IH.
Qed.

Lemma filter_safe_sanitize (title : str) :
  List.filter safe_char (sanitize_filename title) = List.filter safe_char title.
Proof.
  unfold sanitize_filename.
  destruct (strip_split (remove_illegal title)) as (w1 & w2 & Hs & H1 & H2).
  rewrite <- (filter_safe_remove_illegal title).
  set (r := remove_illegal title) in *.
  transitivity (List.filter safe_char (w1 ++ strip r ++ w2)); [|now rewrite <- Hs].
  rewrite !List.filter_app.
  pose proof (filter_safe_spaces w1 H1) as E1.
  pose proof (filter_safe_spaces w2 H2) as E2.
  unfold str, char in *. rewrite E1, E2. cbn [app]. now rewrite app_nil_r.
Qed.

(** The sanitized title is the title with some characters taken out, in the
    same order, and every character that is neither illegal nor whitespace
    is kept: only illegal characters and whitespace are ever lost. *)
Theorem sanitize_filename_only_removes :
  forall title : str,
    sublist (sanitize_filename title) title
    /\ List.filter safe_char (sanitize_filename title) = List.filter safe_char title.
Proof.
  intros title. split; [|apply filter_safe_sanitize].
  unfold sanitize_filename.
  destruct (strip_split (remove_illegal title)) as (w1 & w2 & Hs & _ & _).
  transitivity (remove_illegal title); [|apply remove_illegal_sublist].
  set (r := remove_illegal title) in *.
  assert (sublist (strip r) (w1 ++ strip r ++ w2)) as Hsub
    by (apply sublist_inserts_l, sublist_inserts_r; reflexivity).
  now rewrite <- Hs in Hsub.
Qed.

Lemma lstrip_spaces (w : str) :
  Forall (fun c => isspace c = true) w -> lstrip w = [].
Proof.
  induction 1 as [|c w Hc _ IH]; [reflexivity|]. cbn [lstrip]. now rewrite Hc.
Qed.

(** The sanitized title is empty exactly when every character of the title
    is illegal or whitespace; this is when the file name prefix starts with
    the underscore that precedes the timestamp. *)
Theorem sanitize_filename_empty_iff :
  forall title : str,
    sanitize_filename title = []
    <-> Forall (fun c => droppable c = true) title.
Proof.
  intros title. split.
  - intros Hempty.
    pose proof (filter_safe_sanitize title) as Hsafe.
    rewrite Hempty in Hsafe. cbn in Hsafe.
    apply Forall_forall. intros c Hc. apply list_elem_of_In in Hc.
    destruct (droppable c) eqn:Hd; [reflexivity|].
    assert (In c (List.filter safe_char title)) as Hin.
    { apply filter_In. split; [exact Hc|]. unfold droppable in Hd.
      apply orb_false_iff in Hd as [Hi Hsp]. unfold safe_char.
      now rewrite Hi, Hsp. }
    rewrite <- Hsafe in Hin. destruct Hin.
  - intros Hall. unfold sanitize_filename, strip.
    assert (Forall (fun c => isspace c = true) (remove_illegal title)) as Hsp.
    { apply Forall_forall. intros c Hc. apply list_elem_of_In in Hc.
      unfold remove_illegal in Hc. apply filter_In in Hc as [Hc Hl].
      rewrite Forall_forall in Hall. apply list_elem_of_In, Hall in Hc.
      unfold droppable in Hc. apply negb_true_iff in Hl. rewrite Hl in Hc.
      exact Hc. }
    now rewrite (lstrip_spaces _ Hsp).
Qed.

(** ** What the selection can return *)

Lemma py_gt_raises a b e : py_gt a b = Raise e -> e = TypeError.
Proof. destruct a, b; cbn; congruence. Qed.

Lemma py_ge_raises a b e : py_ge a b = Raise e -> e = TypeError.
Proof. destruct a, b; cbn; congruence. Qed.

Lemma max_loop_outcome {A} (key : A -> pyval) (rest : list A) :
  forall m mv,
    match max_loop key m mv rest with
    | Return d => d = m \/ In d rest
    | Raise e => e = TypeError
    end.
Proof.
  induction rest as [|x rest IH]; intros m mv; cbn [max_loop]; [now left|].
  destruct (py_gt (key x) mv) as [[|]|e] eqn:Hgt; cbn [bind].
  - specialize (IH x (key x)). destruct (max_loop key x (key x) rest); [|exact IH].
    destruct IH as [->|H]; right; [now left | now right].
  - specialize (IH m mv). destruct (max_loop key m mv rest); [|exact IH].
    destruct IH as [->|H]; [now left | right; now right].
  - exact (py_gt_raises _ _ _ Hgt).
Qed.

Lemma py_max_outcome {A} (key : A -> pyval) (l : list A) :
  l <> [] ->
  match py_max key l with
  | Return d => In d l
  | Raise e => e = TypeError
  end.
Proof.
  destruct l as [|m rest]; [congruence|]. intros _. cbn [py_max].
  pose proof (max_loop_outcome key rest m (key m)) as H.
  destruct (max_loop key m (key m) rest); [|exact H].
  destruct H as [->|H]; [now left | now right].
Qed.

Lemma next_or_outcome {A} (cond : A -> result bool) (l : list A) (dflt : A) :
  (forall x e, cond x = Raise e -> e = TypeError) ->
  match next_or cond l dflt with
  | Return d => In d l \/ d = dflt
  | Raise e => e = TypeError
  end.
Proof.
  intros Hcond. induction l as [|x l IH]; cbn [next_or]; [now right|].
  destruct (cond x) as [[|]|e] eqn:Hx; cbn [bind].
  - left. now left.
  - destruct (next_or cond l dflt); [|exact IH].
    destruct IH as [H| ->]; [left; now right | now right].
  - exact (Hcond x e Hx).
Qed.

Lemma select_video_outcome (pv : list pydict) :
  pv <> [] ->
  match select_video pv with
  | Return d => In d pv
  | Raise e => e = TypeError
  end.
Proof.
  intros Hne. unfold select_video.
  pose proof (py_max_outcome height_key pv Hne) as Hmax.
  destruct (py_max height_key pv) as [m|e]; cbn [bind]; [|exact Hmax].
  pose proof (next_or_outcome
                (fun fmt => Return (py_eq (get fmt "height") (VInt 1080))) pv m) as Hn.
  destruct (next_or _ pv m); [|apply Hn; intros; discriminate].
  destruct Hn as [H| ->]; [intros; discriminate | exact H | exact Hmax].
Qed.

Lemma select_audio_outcome (cfg : config) (pa : list pydict) :
  pa <> [] ->
  match select_audio cfg pa with
  | Return d => In d pa
  | Raise e => e = TypeError
  end.
Proof.
  intros Hne. unfold select_audio.
  pose proof (py_max_outcome asr_key pa Hne) as Hmax.
  destruct (py_max asr_key pa) as [m|e]; cbn [bind]; [|exact Hmax].
  pose proof (next_or_outcome
                (fun fmt => py_ge (get_default fmt "asr" (VInt 0))
                              (VInt (AUDIO_PREFERRED_ASR cfg))) pa m) as Hn.
  assert (forall x e,
            py_ge (get_default x "asr" (VInt 0)) (VInt (AUDIO_PREFERRED_ASR cfg))
            = Raise e -> e = TypeError) as Hc by (intros x e; apply py_ge_raises).
  destruct (next_or _ pa m); [|exact (Hn Hc)].
  destruct (Hn Hc) as [H| ->]; [exact H | exact Hmax].
Qed.

Lemma pure_video_not_audio (fmt : pydict) :
  is_pure_video fmt = true -> is_pure_audio fmt = true -> False.
Proof.
  rewrite is_pure_video_iff, is_pure_audio_iff. intros [_ Ha] [Hna _]. contradiction.
Qed.

(** The three outcomes of steps 6 to 8. The no-usable-stream answer is given
    exactly when one of the two filtered lists is empty; a selected pair is
    made of two different descriptors of the listing, the first video-only
    and the second audio-only; and the only exception the steps can raise is
    [TypeError], from a comparison, with both lists non-empty. *)
Theorem select_streams_outcomes :
  forall cfg (all_formats : list pydict),
    match select_streams cfg all_formats with
    | Return NoStream =>
        pure_video_formats all_formats = [] \/ pure_audio_formats all_formats = []
    | Return (Selected v a) =>
        In v all_formats /\ is_pure_video v = true
        /\ In a all_formats /\ is_pure_audio a = true
        /\ v <> a
    | Raise e =>
        e = TypeError
        /\ pure_video_formats all_formats <> []
        /\ pure_audio_formats all_formats <> []
    end.
Proof.
  intros cfg l. unfold select_streams.
  destruct (pure_video_formats l) as [|v0 pv] eqn:Hpv; [now left|].
  destruct (pure_audio_formats l) as [|a0 pa] eqn:Hpa; [now right|].
  assert (v0 :: pv <> []) as Hv by discriminate.
  assert (a0 :: pa <> []) as Ha by discriminate.
  pose proof (select_video_outcome (v0 :: pv) Hv) as Hsv.
  destruct (select_video (v0 :: pv)) as [v|e]; cbn [bind]; [|auto].
  pose proof (select_audio_outcome cfg (a0 :: pa) Ha) as Hsa.
  destruct (select_audio cfg (a0 :: pa)) as [a|e]; cbn [bind]; [|auto].
  rewrite <- Hpv in Hsv. rewrite <- Hpa in Hsa.
  unfold pure_video_formats in Hsv. unfold pure_audio_formats in Hsa.
  apply filter_In in Hsv as [Hvin Hvp]. apply filter_In in Hsa as [Hain Hap].
  repeat split; auto.
  intros ->. exact (pure_video_not_audio a Hvp Hap).
Qed.

(** No descriptor is both video-only and audio-only, and a descriptor whose
    two codec fields are both real, or both [none], is neither: a listing
    made of such descriptors only is answered with the no-usable-stream
    page. *)
Theorem muxed_descriptors_are_ignored :
  forall cfg (all_formats : list pydict),
    (forall fmt, ~ (is_pure_video fmt = true /\ is_pure_audio fmt = true))
    /\ (Forall (fun fmt =>
                  (get fmt "vcodec" <> none_str /\ get fmt "acodec" <> none_str)
                  \/ (get fmt "vcodec" = none_str /\ get fmt "acodec" = none_str))
          all_formats ->
        pure_video_formats all_formats = []
        /\ pure_audio_formats all_formats = []
        /\ select_streams cfg all_formats = Return NoStream).
Proof.
  intros cfg l. split.
  - intros fmt [Hv Ha]. exact (pure_video_not_audio fmt Hv Ha).
  - intros Hall.
    assert (pure_video_formats l = []) as Hpv.
    { unfold pure_video_formats. induction Hall as [|f l Hf _ IH]; [reflexivity|].
      cbn [List.filter]. destruct (is_pure_video f) eqn:Hp; [|exact IH].
      apply is_pure_video_iff in Hp as [Hv Ha].
      destruct Hf as [[_ Hna] | [Hnv _]]; contradiction. }
    assert (pure_audio_formats l = []) as Hpa.
    { clear Hpv. unfold pure_audio_formats. induction Hall as [|f l Hf _ IH]; [reflexivity|].
      cbn [List.filter]. destruct (is_pure_audio f) eqn:Hp; [|exact IH].
      apply is_pure_audio_iff in Hp as [Ha Hv].
      destruct Hf as [[Hnv _] | [_ Hna]]; contradiction. }
    split; [exact Hpv|]. split; [exact Hpa|].
    unfold select_streams. now rewrite Hpv.
Qed.

(** An instance: a listing of one muxed descriptor. *)
Lemma muxed_descriptors_are_ignored_witness :
  select_streams app_config
    [mkfmt [("vcodec", VStr (lit "avc1")); ("acodec", VStr (lit "mp4a"))]]
  = Return NoStream.
Proof.
  refine (proj2 (proj2 (proj2 (muxed_descriptors_are_ignored app_config
            [mkfmt [("vcodec", VStr (lit "avc1")); ("acodec", VStr (lit "mp4a"))]])
            _))).
  apply List.Forall_cons; [|apply List.Forall_nil].
  left. split; vm_compute; discriminate.
Defined.

(** ** The link validator *)

Lemma strip_prefix_spec (p s r : str) : strip_prefix p s = Some r <-> s = p ++ r.
Proof.
  revert s. induction p as [|x p IH]; intros s; cbn [strip_prefix app].
  - split; [intros [= ->]; reflexivity | intros ->; reflexivity].
  - destruct s as [|y s]; [split; discriminate|].
    unfold char_eqb. destruct (N.eqb_spec x y) as [->|Hne].
    + rewrite IH. split; [intros ->; reflexivity | intros [= ->]; reflexivity].
    + split; [discriminate | intros [= ? _]; congruence].
Qed.

Lemma fullmatch_shape_spec (rest : str) (cls : char -> bool) (url : str) :
  fullmatch_shape rest cls url = true <-> url_shape rest cls url.
Proof.
  unfold fullmatch_shape, url_shape. cbv beta zeta. split.
  - destruct (strip_prefix (lit "http") url) as [r|] eqn:Hr; [|discriminate].
    apply strip_prefix_spec in Hr. subst url.
    intros [H|H]%orb_true_iff.
    + destruct (strip_prefix (lit "://" ++ rest) r) as [[|c t]|] eqn:Ht;
        try discriminate.
      apply strip_prefix_spec in Ht. subst r.
      exists (lit "http"), (c :: t).
      split; [now left|]. split; [discriminate|]. split; [exact H|].
      now rewrite <- app_assoc.
    + destruct r as [|c r]; [discriminate|].
      apply andb_true_iff in H as [Hc H]. apply N.eqb_eq in Hc. subst c.
      destruct (strip_prefix (lit "://" ++ rest) r) as [[|c t]|] eqn:Ht;
        try discriminate.
      apply strip_prefix_spec in Ht. subst r.
      exists (lit "https"), (c :: t).
      split; [now right|]. split; [discriminate|]. split; [exact H|].
      now rewrite <- app_assoc.
  - intros (scheme & tail & [-> | ->] & Hne & Hcls & ->).
    + assert (strip_prefix (lit "http") (lit "http" ++ lit "://" ++ rest ++ tail)
              = Some (lit "://" ++ rest ++ tail)) as -> by now apply strip_prefix_spec.
      cbv beta zeta.
      assert (strip_prefix (lit "://" ++ rest) (lit "://" ++ rest ++ tail)
              = Some tail) as ->
        by (apply strip_prefix_spec; now rewrite <- app_assoc).
      destruct tail as [|c t]; [congruence|].
      apply orb_true_iff. left. exact Hcls.
    + assert (strip_prefix (lit "http") (lit "https" ++ lit "://" ++ rest ++ tail)
              = Some (115 :: lit "://" ++ rest ++ tail)) as ->
        by now apply strip_prefix_spec.
      cbv beta zeta.
      assert (strip_prefix (lit "://" ++ rest) (lit "://" ++ rest ++ tail)
              = Some tail) as ->
        by (apply strip_prefix_spec; now rewrite <- app_assoc).
      destruct tail as [|c t]; [congruence|].
      apply orb_true_iff. right. apply andb_true_iff. split; [reflexivity|].
      exact Hcls.
Qed.

Lemma is_valid_bilibili_url_shapes_aux (url : str) :
  is_valid_bilibili_url url = true ->
  url_shape (lit "www.bilibili.com/video/") is_video_path_char url
  \/ url_shape (lit "b23.tv/") is_alnum url.
Proof.
  unfold is_valid_bilibili_url. now rewrite orb_true_iff, !fullmatch_shape_spec.
Qed.

(** The validator accepts exactly the two link shapes, matched against the
    whole string: the standard video link and the short link. *)
Theorem is_valid_bilibili_url_shapes :
  forall url : str,
    is_valid_bilibili_url url = true
    <-> url_shape (lit "www.bilibili.com/video/") is_video_path_char url
        \/ url_shape (lit "b23.tv/") is_alnum url.
Proof.
  intros url. unfold is_valid_bilibili_url.
  now rewrite orb_true_iff, !fullmatch_shape_spec.
Qed.

Lemma alnum_video_path_char (c : char) :
  is_alnum c = true -> is_video_path_char c = true.
Proof. unfold is_video_path_char. now intros ->. Qed.

Lemma video_path_char_plain (c : char) :
  is_video_path_char c = true -> isspace c = false /\ c < 128.
Proof.
  unfold is_video_path_char, is_alnum.
  rewrite !orb_true_iff, !andb_true_iff, !N.leb_le, !N.eqb_eq. intros H. split.
  - apply not_true_iff_false. unfold isspace.
    rewrite !orb_true_iff, !andb_true_iff, !N.leb_le, !N.eqb_eq. lia.
  - lia.
Qed.

Lemma forallb_video_path_char (cls : char -> bool) (tail : str) :
  (forall c, cls c = true -> is_video_path_char c = true) ->
  forallb cls tail = true ->
  Forall (fun c => is_video_path_char c = true) tail.
Proof.
  intros Hcls Hall. rewrite forallb_forall in Hall.
  apply Forall_forall. intros c Hc. apply list_elem_of_In in Hc. auto.
Qed.

(** A link of either shape starts with the four letters of [http] and goes
    on with characters that are plain: no whitespace, all below 128. *)
Lemma url_shape_plain (rest : str) (cls : char -> bool) (url : str) :
  (forall c, cls c = true -> is_video_path_char c = true) ->
  Forall (fun c => isspace c = false /\ c < 128) rest ->
  url_shape rest cls url ->
  (exists r, url = lit "http" ++ r)
  /\ Forall (fun c => isspace c = false /\ c < 128) url
  /\ (exists r c, url = r ++ [c] /\ is_video_path_char c = true).
Proof.
  intros Hcls Hrest (scheme & tail & Hscheme & Hne & Hall & ->).
  pose proof (forallb_video_path_char cls tail Hcls Hall) as Htail.
  split; [|split].
  - destruct Hscheme as [-> | ->]; eexists; cbn; reflexivity.
  - apply Forall_app. split.
    { destruct Hscheme as [-> | ->]; vm_compute; repeat constructor. }
    apply Forall_app. split; [vm_compute; repeat constructor|].
    apply Forall_app. split; [exact Hrest|].
    eapply Forall_impl; [exact Htail|]. intros c. apply video_path_char_plain.
  - destruct (exists_last Hne) as (t & c & ->).
    exists (scheme ++ lit "://" ++ rest ++ t), c. split.
    + now rewrite <- !app_assoc.
    + apply Forall_app in Htail as [_ Hc]. now inversion Hc.
Qed.

Lemma valid_url_plain (url : str) :
  is_valid_bilibili_url url = true ->
  (exists r, url = lit "http" ++ r)
  /\ Forall (fun c => isspace c = false /\ c < 128) url
  /\ (exists r c, url = r ++ [c] /\ is_video_path_char c = true).
Proof.
  intros [H|H]%is_valid_bilibili_url_shapes_aux.
  - apply (url_shape_plain _ _ _ (fun c Hc => Hc)) in H; [exact H|].
    vm_compute. repeat constructor.
  - apply (url_shape_plain _ _ _ alnum_video_path_char) in H; [exact H|].
    vm_compute. repeat constructor.
Qed.

(** Nothing may surround a valid link: it is not empty, holds no whitespace
    and no character above 127, so that stripping leaves it as it is; with one
    more character in front it is no longer valid, and with one more
    character at the end it is valid only if that character is of the class
    of the path. *)
Theorem valid_url_admits_no_garbage :
  forall url : str,
    is_valid_bilibili_url url = true ->
    url <> []
    /\ Forall (fun c => isspace c = false /\ c < 128) url
    /\ strip url = url
    /\ (forall c, is_valid_bilibili_url (c :: url) = false)
    /\ (forall c, is_valid_bilibili_url (url ++ [c]) = true ->
                  is_video_path_char c = true).
Proof.
  intros url Hvalid.
  destruct (valid_url_plain url Hvalid) as ((r & Hr) & Hplain & _).
  split; [|split; [exact Hplain|split; [|split]]].
  - rewrite Hr. discriminate.
  - rewrite Forall_forall in Hplain.
    apply strip_fixed.
    + intros c t ->. apply Hplain. now left.
    + intros c t ->. apply Hplain. apply list_elem_of_In, in_or_app. right. now left.
  - intros c. rewrite Hr. apply not_true_iff_false. intros Hc.
    apply valid_url_plain in Hc as ((r' & Hr') & _).
    cbn in Hr'. injection Hr' as -> Ht. discriminate.
  - intros c Hc. apply valid_url_plain in Hc as (_ & _ & r' & c' & Heq & Hc').
    apply app_inj_tail in Heq as [_ ->]. exact Hc'.
Qed.

(** An instance: the standard link used in the examples. *)
Lemma valid_url_admits_no_garbage_witness :
  is_valid_bilibili_url demo_url = true
  /\ strip demo_url = demo_url
  /\ is_valid_bilibili_url (32 :: demo_url) = false.
Proof.
  assert (is_valid_bilibili_url demo_url = true) as H by reflexivity.
  split; [exact H|].
  split; [exact (proj1 (proj2 (proj2 (valid_url_admits_no_garbage demo_url H))))|].
  exact (proj1 (proj2 (proj2 (proj2 (valid_url_admits_no_garbage demo_url H)))) 32).
Defined.

(** ** Timestamps and the paths of a run *)

Lemma digits_value_app (a b : str) :
  digits_value (a ++ b)
  = fold_left (fun v c => 10 * v + (c - 48)) b (digits_value a).
Proof. unfold digits_value. apply fold_left_app. Qed.

Lemma digits_value_zeros (k : nat) : digits_value (repeat 48 k) = 0.
Proof.
  induction k as [|k IH]; [reflexivity|].
  change (repeat 48 (S k)) with ([48] ++ repeat 48 k).
  rewrite digits_value_app. exact IH.
Qed.

Lemma zero_pad_value (w : nat) (n : N) : digits_value (zero_pad w n) = n.
Proof.
  unfold zero_pad. rewrite digits_value_app, digits_value_zeros.
  apply decimal_value.
Qed.

Lemma digits_fuel_length (fuel : nat) :
  forall n acc (k : nat),
    (1 <= k)%nat -> n < 10 ^ N.of_nat k ->
    (length (digits_fuel fuel n acc) <= k + length acc)%nat.
Proof.
  induction fuel as [|f IH]; intros n acc k Hk Hn; cbn [digits_fuel]; [lia|].
  destruct (N.eqb_spec (n / 10) 0) as [Hq|Hq]; [cbn [length]; lia|].
  assert (10 <= n) as Hn10.
  { destruct (N.lt_ge_cases n 10) as [Hlt|]; [|assumption].
    apply N.div_small in Hlt. contradiction. }
  destruct k as [|[|k]]; [lia | cbn in Hn; lia |].
  assert (n / 10 < 10 ^ N.of_nat (S k)) as Hq'.
  { apply N.Div0.div_lt_upper_bound.
    rewrite <- N.pow_succ_r', <- Nat2N.inj_succ. exact Hn. }
  specialize (IH (n / 10) ((48 + n mod 10) :: acc) (S k) ltac:(lia) Hq').
  cbn [length] in IH. lia.
Qed.

Lemma zero_pad_length (w : nat) (n : N) :
  (1 <= w)%nat -> n < 10 ^ N.of_nat w -> length (zero_pad w n) = w.
Proof.
  intros Hw Hn. unfold zero_pad, decimal.
  pose proof (digits_fuel_length (S (N.to_nat (N.log2 n))) n [] w Hw Hn) as Hlen.
  cbn [length] in Hlen. rewrite length_app, repeat_length. lia.
Qed.

Lemma strftime_fields (t1 t2 : datetime) :
  plain_datetime t1 -> plain_datetime t2 ->
  strftime_YmdHMS t1 = strftime_YmdHMS t2 -> same_second t1 t2.
Proof.
  intros (Hy1 & Hy1' & Hmo1 & Hd1 & Hh1 & Hmi1 & Hs1)
         (Hy2 & Hy2' & Hmo2 & Hd2 & Hh2 & Hmi2 & Hs2).
  unfold strftime_YmdHMS, same_second. intros H.
  assert (forall n, n <= 9999 -> length (zero_pad 4 n) = 4%nat) as L4
    by (intros n Hn; apply zero_pad_length; [lia | cbn; lia]).
  assert (forall n, n < 100 -> length (zero_pad 2 n) = 2%nat) as L2
    by (intros n Hn; apply zero_pad_length; [lia | cbn; lia]).
  assert (forall w a b, zero_pad w a = zero_pad w b -> a = b) as Hinj.
  { intros w a b E. rewrite <- (zero_pad_value w a), <- (zero_pad_value w b).
    now rewrite E. }
  apply app_inj_1 in H as [E1 H]; [|now rewrite !L4].
  apply app_inj_1 in H as [E2 H]; [|now rewrite !L2].
  apply app_inj_1 in H as [E3 H]; [|now rewrite !L2].
  apply app_inj_1 in H as [E4 H]; [|now rewrite !L2].
  apply app_inj_1 in H as [E5 E6]; [|now rewrite !L2].
  repeat split; eapply Hinj; eassumption.
Qed.

Lemma strftime_length (t : datetime) :
  plain_datetime t -> length (strftime_YmdHMS t) = 14%nat.
Proof.
  intros (Hy & Hy' & Hmo & Hd & Hh & Hmi & Hs). unfold strftime_YmdHMS.
  rewrite !length_app.
  rewrite (zero_pad_length 4 (year t)) by (cbn; lia).
  rewrite !zero_pad_length by (cbn; lia). reflexivity.
Qed.

Lemma startswith_slash_app (p x : str) :
  p <> [] -> startswith (lit "/") (p ++ x) = startswith (lit "/") p.
Proof. destruct p as [|c p]; [congruence|]. intros _. cbn. now destruct (char_eqb _ c). Qed.

(** [os.path.join] on a fixed folder does not confuse two names that start
    alike. *)
Lemma path_join_inj (a p x1 x2 : str) :
  p <> [] -> path_join a (p ++ x1) = path_join a (p ++ x2) -> x1 = x2.
Proof.
  intros Hp. unfold path_join. rewrite !(startswith_slash_app p _ Hp).
  destruct (startswith (lit "/") p).
  - apply app_inv_head.
  - destruct (match a with [] => true | _ :: _ => endswith (lit "/") a end);
      intros H; repeat apply app_inv_head in H; exact H.
Qed.

Lemma prefix_nonempty (title ts : str) : filename_prefix_of title ts <> [].
Proof. unfold filename_prefix_of. destruct title; discriminate. Qed.

(** The other side of C3: for clock readings with a four-digit year the
    timestamp is made of fourteen digits and tells the second; two runs on
    the same title whose readings fall in different seconds derive different
    temporary paths and different final paths, whatever the extensions. *)
Theorem timestamps_separate_seconds :
  forall t1 t2 : datetime,
    plain_datetime t1 -> plain_datetime t2 ->
    length (strftime_YmdHMS t1) = 14%nat
    /\ (strftime_YmdHMS t1 = strftime_YmdHMS t2 <-> same_second t1 t2)
    /\ (~ same_second t1 t2 ->
        forall cfg title ext1 ext2,
          let p1 := filename_prefix_of title (strftime_YmdHMS t1) in
          let p2 := filename_prefix_of title (strftime_YmdHMS t2) in
          temp_video_path_of cfg p1 ext1 <> temp_video_path_of cfg p2 ext2
          /\ temp_audio_path_of cfg p1 ext1 <> temp_audio_path_of cfg p2 ext2
          /\ final_video_path_of cfg p1 <> final_video_path_of cfg p2).
Proof.
  intros t1 t2 H1 H2. split; [now apply strftime_length|]. split.
  - split; [now apply strftime_fields|].
    destruct t1, t2. unfold same_second. cbn.
    intros (-> & -> & -> & -> & -> & ->). reflexivity.
  - intros Hdiff cfg title ext1 ext2 p1 p2.
    assert (strftime_YmdHMS t1 <> strftime_YmdHMS t2) as Hts
      by (intros E; apply Hdiff; now apply strftime_fields).
    assert (length (strftime_YmdHMS t1) = length (strftime_YmdHMS t2)) as Hlen
      by (now rewrite !strftime_length).
    assert (forall x1 x2, path_join (TEMP_FOLDER cfg) (p1 ++ x1)
                          <> path_join (TEMP_FOLDER cfg) (p2 ++ x2)) as Htemp.
    { intros x1 x2 E. unfold p1, p2, filename_prefix_of in E.
      rewrite <- !app_assoc in E.
      destruct title as [|c title].
      - cbn [app] in E.
        change (lit "_" ++ ?x) with ([95] ++ x) in E.
        apply (path_join_inj _ [95]) in E; [|discriminate].
        apply app_inj_1 in E as [E _]; [contradiction | exact Hlen].
      - apply (path_join_inj _ (c :: title)) in E; [|discriminate].
        apply app_inv_head in E.
        apply app_inj_1 in E as [E _]; [contradiction | exact Hlen]. }
    split; [apply Htemp|]. split; [apply Htemp|].
    unfold final_video_path_of, final_video_filename_of.
    intros E. unfold p1, p2, filename_prefix_of in E.
    rewrite <- !app_assoc in E.
    destruct title as [|c title].
    + cbn [app] in E.
      apply (path_join_inj _ [95]) in E; [|discriminate].
      apply app_inj_1 in E as [E _]; [contradiction | exact Hlen].
    + apply (path_join_inj _ (c :: title)) in E; [|discriminate].
      apply app_inv_head in E.
      apply app_inj_1 in E as [E _]; [contradiction | exact Hlen].
Qed.

(** An instance: the clock reading of the examples. *)
Lemma timestamps_separate_seconds_witness :
  plain_datetime demo_now
  /\ length (strftime_YmdHMS demo_now) = 14%nat.
Proof.
  assert (plain_datetime demo_now) as H
    by (unfold plain_datetime; cbn; lia).
  split; [exact H|].
  exact (proj1 (timestamps_separate_seconds demo_now demo_now H H)).
Defined.

(** ** The janitor over several cycles *)

Lemma clean_listing_removable cfg t l :
  Forall (fun e => remove_raises e = false) l ->
  clean_listing cfg t l = (cleaned cfg t l, None).
Proof.
  intros Hall.
  destruct (clean_listing_spec cfg t l)
    as [[H _] | (e & l1 & l2 & -> & _ & Hr & _)]; [exact H|].
  apply Forall_app in Hall as [_ Hall]. inversion Hall; congruence.
Qed.

Lemma removable_Forall l :
  removable (Some l) -> Forall (fun e => remove_raises e = false) l.
Proof.
  intros H. apply List.Forall_forall. intros e He. apply H. now exists l.
Qed.

Lemma clean_folder_removable cfg t f :
  removable f -> clean_folder cfg t f = (option_map (cleaned cfg t) f, None).
Proof.
  destruct f as [l|]; [|reflexivity]. intros H. cbn [clean_folder option_map].
  now rewrite (clean_listing_removable cfg t l (removable_Forall l H)).
Qed.

Lemma removable_cleaned cfg t f :
  removable f -> removable (option_map (cleaned cfg t) f).
Proof.
  intros H e (l' & Hl' & Hin). destruct f as [l|]; [|discriminate].
  injection Hl' as <-. apply cleaned_In in Hin as [Hin _]. apply H. now exists l.
Qed.

Lemma filter_cleaned cfg t clock l :
  List.filter (never_expired cfg clock) (cleaned cfg t l)
  = List.filter (never_expired cfg (t :: clock)) l.
Proof.
  unfold cleaned. induction l as [|e l IH]; [reflexivity|].
  cbn [List.filter never_expired forallb].
  destruct (negb (expired cfg t e)); cbn [andb List.filter];
    fold (never_expired cfg clock e); now rewrite IH.
Qed.

Lemma filter_never_expired_nil cfg (l : list entry) :
  List.filter (never_expired cfg []) l = l.
Proof.
  induction l as [|e l IH]; [reflexivity|].
  cbn [List.filter never_expired forallb]. f_equal. exact IH.
Qed.

Lemma expired_later cfg t t' e :
  (t <= t')%Z -> expired cfg t e = true -> expired cfg t' e = true.
Proof. rewrite !expired_iff. intros Ht [Hf Ha]. split; [exact Hf | lia]. Qed.

Lemma never_expired_last cfg clock t e :
  last clock = Some t -> Forall (fun t' => (t' <= t)%Z) clock ->
  never_expired cfg clock e = negb (expired cfg t e).
Proof.
  intros Hlast Hall. unfold never_expired.
  destruct (expired cfg t e) eqn:He; cbn [negb].
  - apply not_true_iff_false. intros Hf. rewrite forallb_forall in Hf.
    assert (In t clock) as Hin.
    { apply list_elem_of_In. apply last_Some in Hlast as [l' ->].
      apply elem_of_app. right. now left. }
    apply Hf in Hin. rewrite He in Hin. discriminate.
  - apply forallb_forall. intros t' Hin. apply negb_true_iff.
    apply not_true_iff_false. intros He'.
    rewrite List.Forall_forall in Hall.
    rewrite (expired_later cfg t' t e (Hall t' Hin) He') in He. discriminate.
Qed.

(** When no removal fails, any number of cycles leaves in each folder
    exactly the entries that were expired at none of the readings of the
    clock, in their order, and the handler never runs; a missing folder stays
    missing. With a clock that does not go backwards these are the entries
    not expired at the latest reading. *)
Theorem janitor_cycles_compose :
  forall cfg clock d,
    removable (download_dir d) -> removable (temp_dir d) ->
    clean_old_files cfg clock d
    = ({| download_dir := option_map (List.filter (never_expired cfg clock)) (download_dir d);
          temp_dir := option_map (List.filter (never_expired cfg clock)) (temp_dir d) |},
       repeat None (length clock))
    /\ (forall t l, last clock = Some t -> Forall (fun t' => (t' <= t)%Z) clock ->
          List.filter (never_expired cfg clock) l = cleaned cfg t l).
Proof.
  intros cfg clock d Hd Ht. split.
  - revert d Hd Ht. induction clock as [|t later IH]; intros [dl tp] Hd Ht;
      cbn [download_dir temp_dir] in *.
    + cbn [clean_old_files length repeat never_expired forallb].
      f_equal. f_equal.
      * destruct dl as [l|]; [|reflexivity]. cbn [option_map]. f_equal.
        symmetry. apply filter_never_expired_nil.
      * destruct tp as [l|]; [|reflexivity]. cbn [option_map]. f_equal.
        symmetry. apply filter_never_expired_nil.
    + cbn [clean_old_files]. unfold clean_cycle. cbn [download_dir temp_dir].
      rewrite (clean_folder_removable cfg t dl Hd).
      rewrite (clean_folder_removable cfg t tp Ht).
      rewrite IH; cbn [download_dir temp_dir]; try now apply removable_cleaned.
      cbn [length repeat]. f_equal. f_equal.
      * destruct dl as [l|]; [|reflexivity]. cbn [option_map]. f_equal.
        apply filter_cleaned.
      * destruct tp as [l|]; [|reflexivity]. cbn [option_map]. f_equal.
        apply filter_cleaned.
  - intros t l Hlast Hall. unfold cleaned.
    apply List.filter_ext. intros e. now apply never_expired_last.
Qed.

(** An instance: two cycles over a folder of one stale and one fresh file. *)
Lemma janitor_cycles_compose_witness :
  let fresh := {| name := lit "fresh.mp4"; is_file := true; ctime := 9000;
                  remove_raises := false |} in
  let d := {| download_dir := Some [stale_file; fresh]; temp_dir := None |} in
  removable (download_dir d)
  /\ fst (clean_old_files app_config [10000; 11800]%Z d)
     = {| download_dir := Some [fresh]; temp_dir := None |}.
Proof.
  intros fresh d.
  assert (removable (download_dir d)) as Hd.
  { intros e (l & [= <-] & [<- | [<- | []]]); reflexivity. }
  assert (removable (temp_dir d)) as Ht.
  { intros e (l & Hl & _). discriminate. }
  split; [exact Hd|].
  now rewrite (proj1 (janitor_cycles_compose app_config [10000; 11800]%Z d Hd Ht)).
Defined.

Lemma clean_listing_blocked cfg t l1 e l2 :
  expired cfg t e = true -> remove_raises e = true ->
  exists l1', sublist l1' l1
    /\ clean_listing cfg t (l1 ++ e :: l2) = (l1' ++ e :: l2, Some OSError).
Proof.
  intros He Hr. induction l1 as [|x l1 (l1' & Hsub & IH)]; cbn [app clean_listing].
  - exists []. split; [constructor|]. now rewrite He, Hr.
  - destruct (expired cfg t x).
    + destruct (remove_raises x).
      * exists (x :: l1). split; reflexivity.
      * exists l1'. split; [now apply sublist_cons | exact IH].
    + rewrite IH. exists (x :: l1'). split; [now apply sublist_skip | reflexivity].
Qed.

(** An expired file of the download folder whose removal keeps failing
    starves the janitor: in every later cycle the handler runs, and the
    entries listed after that file, expired or not, and the whole temp
    folder are never cleaned; only entries listed before it can go. *)
Theorem undeletable_file_starves_the_janitor :
  forall cfg clock l1 e l2 tp t0,
    expired cfg t0 e = true -> remove_raises e = true ->
    Forall (fun t => (t0 <= t)%Z) clock ->
    let d := {| download_dir := Some (l1 ++ e :: l2); temp_dir := tp |} in
    let d' := fst (clean_old_files cfg clock d) in
    snd (clean_old_files cfg clock d) = repeat (Some OSError) (length clock)
    /\ temp_dir d' = tp
    /\ exists l1', sublist l1' l1 /\ download_dir d' = Some (l1' ++ e :: l2).
Proof.
  intros cfg clock l1 e l2 tp t0 He Hr Hclock. cbv zeta.
  revert l1. induction Hclock as [|t later Ht _ IH]; intros l1.
  - cbn. split; [reflexivity|]. split; [reflexivity|]. now exists l1.
  - cbn [clean_old_files]. unfold clean_cycle. cbn [download_dir temp_dir clean_folder].
    destruct (clean_listing_blocked cfg t l1 e l2 (expired_later cfg t0 t e Ht He) Hr)
      as (l1' & Hsub & ->).
    destruct (IH l1') as (Hlog & Htp & l1'' & Hsub' & Hdl).
    destruct (clean_old_files cfg later _) as [d2 log]. cbn [fst snd] in *.
    split; [cbn; now rewrite Hlog|]. split; [exact Htp|].
    exists l1''. split; [now transitivity l1' | exact Hdl].
Qed.

(** An instance: the locked file of the examples, over two cycles. *)
Lemma undeletable_file_starves_the_janitor_witness :
  fst (clean_old_files app_config [10000; 11800]%Z demo_disk) = demo_disk.
Proof.
  pose proof (undeletable_file_starves_the_janitor app_config [10000; 11800]%Z
                [] locked_file [stale_file] (Some [stale_file]) 10000%Z
                eq_refl eq_refl) as H.
  assert (Forall (fun t => (10000 <= t)%Z) [10000; 11800]%Z) as Hc
    by (repeat constructor; lia).
  destruct (H Hc) as (_ & Htp & l1' & Hsub & Hdl).
  apply sublist_nil_r in Hsub. subst l1'.
  change (clean_old_files app_config [10000; 11800]%Z demo_disk)
    with (clean_old_files app_config [10000; 11800]%Z
            {| download_dir := Some ([] ++ locked_file :: [stale_file]);
               temp_dir := Some [stale_file] |}).
  destruct (fst (clean_old_files _ _ _)) as [dl tp]. cbn in *. now subst.
Defined.

(** ** The calls of a run *)

Lemma temp_paths_differ cfg prefix vext aext :
  prefix <> [] ->
  temp_video_path_of cfg prefix vext <> temp_audio_path_of cfg prefix aext.
Proof.
  intros Hp E. unfold temp_video_path_of, temp_audio_path_of in E.
  apply path_join_inj in E; [discriminate | exact Hp].
Qed.

Lemma remove_temp_file_exists env p w :
  p ∈ files w -> remove_temp_file env p w = (Return tt, removed env p w).
Proof.
  intros Hin. unfold remove_temp_file, bindM, ask_exists, path_exists, removed.
  rewrite bool_decide_eq_true_2 by exact Hin.
  cbn [effect]. destruct (os_remove_raises env p); reflexivity.
Qed.

Lemma files_removed env p w q :
  q <> p -> q ∈ files w -> q ∈ files (removed env p w).
Proof.
  intros Hq Hin. unfold removed.
  destruct (os_remove_raises env p); cbn; [exact Hin|].
  apply elem_of_difference. split; [exact Hin|].
  intros Hs. apply elem_of_singleton in Hs. contradiction.
Qed.

Lemma files_maybe_create (b : bool) p w q :
  q ∈ files w -> q ∈ files ((if b then create p else id) w).
Proof.
  intros Hin. destruct b; cbn; [|exact Hin]. now apply elem_of_union_r.
Qed.

(** Steps 12 to 14, case by case. *)
Lemma merge_and_finish_cases env cfg tv ta fn fp vt th dur upl w :
  tv <> ta ->
  let argv := ffmpeg_command cfg tv ta fp in
  let out := merge_and_finish env cfg tv ta fn fp vt th dur upl w in
  ((tv ∉ files w \/ ta ∉ files w) /\ out = (Raise RuntimeError, w))
  \/ (tv ∈ files w /\ ta ∈ files w
      /\ match run_ffmpeg env argv with
         | ToolNotStarted => out = (Raise RuntimeError, record (EvFfmpeg argv) w)
         | ToolExit rc wrote =>
             let wm := (if wrote then create fp else id) (record (EvFfmpeg argv) w) in
             if Z.eqb rc 0
             then out = (Return (SuccessPage fn vt th dur upl),
                         removed env ta (removed env tv wm))
             else out = (Raise RuntimeError, wm)
         end).
Proof.
  intros Hne argv out. unfold out, merge_and_finish, bindM, merge_audio_video, path_exists.
  destruct (decide (tv ∈ files w)) as [Hv|Hv].
  2: { left. split; [now left|]. now rewrite bool_decide_eq_false_2 by exact Hv. }
  destruct (decide (ta ∈ files w)) as [Ha|Ha].
  2: { left. split; [now right|].
       rewrite bool_decide_eq_true_2 by exact Hv.
       now rewrite bool_decide_eq_false_2 by exact Ha. }
  right. split; [exact Hv|]. split; [exact Ha|].
  rewrite (bool_decide_eq_true_2 _ Hv), (bool_decide_eq_true_2 _ Ha). cbn [negb].
  fold argv. destruct (run_ffmpeg env argv) as [rc wrote|]; [|reflexivity].
  cbv zeta. destruct (Z.eqb rc 0); cbn [negb]; [|now destruct wrote].
  set (wm := (if wrote then create fp else id) (record (EvFfmpeg argv) w)).
  assert ((if wrote then create fp (record (EvFfmpeg argv) w)
           else record (EvFfmpeg argv) w) = wm) as -> by (now destruct wrote).
  assert (tv ∈ files wm) as Hv' by (now apply files_maybe_create).
  assert (ta ∈ files wm) as Ha' by (now apply files_maybe_create).
  rewrite (remove_temp_file_exists env tv wm Hv').
  rewrite (remove_temp_file_exists env ta (removed env tv wm)); [reflexivity|].
  apply files_removed; [congruence | exact Ha'].
Qed.

Lemma trace_removed env p w : trace (removed env p w) = trace w ++ [EvRemove p].
Proof. unfold removed. now destruct (os_remove_raises env p). Qed.

Section RunSteps.
Variable env : environment.
Variable cfg : config.
Variable now : datetime.
Variable video_url : str.
Variable w0 : world.

Lemma follows_steps_exit thumb vt vid aid vext aext L L' r w :
  let prefix := filename_prefix_of vt (strftime_YmdHMS now) in
  let tv := temp_video_path_of cfg prefix vext in
  let ta := temp_audio_path_of cfg prefix aext in
  (thumb = [] \/ exists tu, thumb = [EvThumbnail tu (thumbnail_path_of cfg prefix)]) ->
  trace w = (trace w0 ++ EvExtract video_url :: thumb) ++ L ->
  L ++ L' = [ EvDownload video_url vid tv; EvDownload video_url aid ta;
              EvFfmpeg (ffmpeg_command cfg tv ta (final_video_path_of cfg prefix));
              EvRemove tv; EvRemove ta ] ->
  (is_success r = true <-> L' = []) ->
  (r = ErrorPage NoUsableStream -> L = []) ->
  follows_steps cfg now video_url w0 r w.
Proof.
  intros prefix tv ta Hthumb Htrace Hplan Hok Hnone.
  exists thumb, vt, vid, aid, vext, aext, (EvExtract video_url :: thumb ++ L).
  cbv zeta. unfold steps_of_run. fold prefix. fold tv. fold ta. rewrite <- Hplan.
  split; [exact Hthumb|]. split.
  { rewrite Htrace, <- app_assoc. reflexivity. }
  split.
  { exists L'. cbn [app]. now rewrite <- app_assoc. }
  split; [reflexivity|]. split.
  - rewrite Hok. split.
    + intros ->. now rewrite app_nil_r.
    + intros [= E]. apply app_inv_head in E.
      rewrite <- (app_nil_r L) in E at 1. now apply app_inv_head in E.
  - intros Hr. rewrite (Hnone Hr). now rewrite app_nil_r.
Qed.

Lemma thumbnail_step_trace tu prefix (R : result (option str) -> world -> Prop) w :
  (forall th w1 thumb,
     (thumb = [] \/ exists tu', thumb = [EvThumbnail tu' (thumbnail_path_of cfg prefix)]) ->
     trace w1 = trace w ++ thumb -> R (Return th) w1) ->
  wp (if truthy tu then download_thumbnail env cfg tu prefix else ret None) R w.
Proof.
  intros HR. destruct (truthy tu).
  - unfold download_thumbnail. apply wp_effect_bind.
    destruct (fetch_thumbnail env tu (thumbnail_path_of cfg prefix)) as [|[|]];
      unfold wp; cbn [bindM effect ret fst snd];
      apply (HR _ _ [EvThumbnail tu (thumbnail_path_of cfg prefix)]); eauto.
  - apply wp_ret. apply (HR None w []); [now left | now rewrite app_nil_r].
Qed.

Lemma download_step_trace fid o (R : result unit -> world -> Prop) w :
  (forall e w1, trace w1 = trace w ++ [EvDownload video_url fid o] -> R (Raise e) w1) ->
  (forall w1, trace w1 = trace w ++ [EvDownload video_url fid o] -> R (Return tt) w1) ->
  wp (ydl_download_to env video_url fid o) R w.
Proof.
  intros HRaise HRet. unfold ydl_download_to. apply wp_effect_bind.
  destruct (ydl_download env video_url fid o) as [raises leaves].
  cbn [dl_raises dl_leaves_file].
  destruct leaves, raises; unfold wp; cbn [bindM effect throw ret fst snd];
    first [apply HRaise; reflexivity | apply HRet; reflexivity].
Qed.

Lemma index_try_follows_steps :
  wp (index_try env cfg now video_url)
     (fun r w => follows_steps cfg now video_url w0 (response_of r) w) w0.
Proof.
  unfold index_try. apply wp_effect_bind.
  set (w1 := record (EvExtract video_url) w0).
  assert (trace w1 = (trace w0 ++ EvExtract video_url :: []) ++ []) as H1
    by (cbn; now rewrite app_nil_r).
  assert (forall e, follows_steps cfg now video_url w0 (response_of (Raise e)) w1) as Hearly.
  { intros e. eapply (follows_steps_exit [] [] [] [] VNone VNone []);
      [now left | exact H1 | reflexivity | now split | discriminate]. }
  apply wp_lift_bind. destruct (extract_info env video_url) as [info|e]; [|apply Hearly].
  apply wp_lift_bind.
  destruct (video_title_of _ _) as [vt|e]; [|apply Hearly].
  clear Hearly H1.
  apply wp_bind, thumbnail_step_trace. intros th w2 thumb Hthumb H2. cbv beta iota.
  assert (trace w2 = (trace w0 ++ EvExtract video_url :: thumb) ++ []) as H2'.
  { rewrite H2. unfold w1. cbn. now rewrite <- !app_assoc, app_nil_r. }
  clearbody w1. clear H2 w1.
  assert (forall r, is_success r = false ->
            follows_steps cfg now video_url w0 r w2) as Hexit.
  { intros r Hr.
    eapply (follows_steps_exit thumb vt [] [] VNone VNone []);
      [exact Hthumb | exact H2' | reflexivity | | reflexivity].
    rewrite Hr. split; discriminate. }
  apply wp_lift_bind. destruct (select_streams _ _) as [[|selv sela]|e];
    [apply wp_ret; now apply Hexit
    | | now apply Hexit].
  apply wp_lift_bind. destruct (getitem selv "ext") as [vext|e];
    [|now apply Hexit].
  apply wp_lift_bind. destruct (getitem sela "ext") as [aext|e];
    [|now apply Hexit].
  apply wp_lift_bind. destruct (getitem selv "format_id") as [vid|e];
    [|now apply Hexit].
  clear Hexit.
  set (prefix := filename_prefix_of vt (strftime_YmdHMS now)).
  set (tv := temp_video_path_of cfg prefix vext).
  set (ta := temp_audio_path_of cfg prefix aext).
  assert (forall aid' L L' (r : result response) w,
            trace w = (trace w0 ++ EvExtract video_url :: thumb) ++ L ->
            L ++ L' = [ EvDownload video_url (py_format vid) tv;
                        EvDownload video_url aid' ta;
                        EvFfmpeg (ffmpeg_command cfg tv ta (final_video_path_of cfg prefix));
                        EvRemove tv; EvRemove ta ] ->
            response_of r <> ErrorPage NoUsableStream ->
            (is_success (response_of r) = true <-> L' = []) ->
            follows_steps cfg now video_url w0 (response_of r) w) as Hexit.
  { intros aid' L L' r w Hw HL Hne Hr.
    eapply (follows_steps_exit thumb vt _ aid' vext aext L L');
      [exact Hthumb | exact Hw | exact HL | exact Hr |].
    intros Hn. contradiction. }
  apply wp_bind, download_step_trace.
  { intros e w3 H3. rewrite H2', app_nil_r in H3.
    eapply (Hexit [] _ _ (Raise e) _ H3); [reflexivity | cbn; discriminate | split; discriminate]. }
  intros w3 H3. cbv beta iota. rewrite H2', app_nil_r in H3.
  apply wp_lift_bind. destruct (getitem sela "format_id") as [aid|e].
  2: { eapply (Hexit [] _ _ (Raise e) _ H3); [reflexivity | cbn; discriminate | split; discriminate]. }
  apply wp_bind, download_step_trace.
  { intros e w4 H4. rewrite H3, <- app_assoc in H4.
    eapply (Hexit (py_format aid) _ _ (Raise e) _ H4);
      [reflexivity | cbn; discriminate | split; discriminate]. }
  intros w4 H4. cbv beta iota. rewrite H3, <- app_assoc in H4. cbn [app] in H4.
  assert (tv <> ta) as Hne by (apply temp_paths_differ, prefix_nonempty).
  unfold wp.
  destruct (merge_and_finish_cases env cfg tv ta (final_video_filename_of prefix)
              (final_video_path_of cfg prefix) vt th
              (get_default (vi_fields info) "duration" (VInt 0))
              (get_default (vi_fields info) "uploader" (VStr unknown_uploader))
              w4 Hne) as [[_ ->] | (_ & _ & Hrun)]; cbn [fst snd].
  { eapply (Hexit (py_format aid) _ _ (Raise RuntimeError) _ H4);
      [reflexivity | cbn; discriminate | split; discriminate]. }
  destruct (run_ffmpeg env _) as [rc wrote|].
  - cbv zeta in Hrun. destruct (Z.eqb rc 0); rewrite Hrun; cbn [fst snd].
    + eapply (Hexit (py_format aid) _ [] (Return _)).
      * rewrite !trace_removed, trace_maybe_create. cbn [record trace].
        rewrite H4, <- !app_assoc. reflexivity.
      * reflexivity.
      * cbn; discriminate.
      * split; reflexivity.
    + eapply (Hexit (py_format aid) _ _ (Raise RuntimeError)).
      * rewrite trace_maybe_create. cbn [record trace]. rewrite H4, <- !app_assoc.
        reflexivity.
      * reflexivity.
      * cbn; discriminate.
      * split; discriminate.
  - rewrite Hrun; cbn [fst snd].
    eapply (Hexit (py_format aid) _ _ (Raise RuntimeError)).
    + cbn [record trace]. rewrite H4, <- !app_assoc. reflexivity.
    + reflexivity.
    + cbn; discriminate.
    + split; discriminate.
Qed.

End RunSteps.

(** The calls of a request, in order. A link that is empty or not valid
    after stripping is answered with the world as it was. Otherwise the calls
    made are the first calls of the sequence: extractor, thumbnail fetch if
    any, video download, audio download, merge tool on the two temporary
    paths and the final path, removal of the temporary video, removal of the
    temporary audio; the extractor is always called, on the stripped link;
    the whole sequence is made exactly when the answer is the success page;
    and the no-usable-stream answer comes before any download. *)
Theorem run_calls_follow_the_steps :
  forall env cfg now form w,
    let video_url := strip (default [] form) in
    let r := fst (index_post env cfg now form w) in
    let w' := snd (index_post env cfg now form w) in
    (is_valid_bilibili_url video_url = false ->
       w' = w /\ (r = ErrorPage EmptyUrl \/ r = ErrorPage InvalidUrl))
    /\ (is_valid_bilibili_url video_url = true ->
        exists thumb vt vid aid vext aext evs,
          let prefix := filename_prefix_of vt (strftime_YmdHMS now) in
          let plan := steps_of_run cfg video_url thumb prefix vid aid vext aext in
          (thumb = [] \/ exists tu, thumb = [EvThumbnail tu (thumbnail_path_of cfg prefix)])
          /\ trace w' = trace w ++ evs
          /\ evs `prefix_of` plan
          /\ head evs = Some (EvExtract video_url)
          /\ (is_success r = true <-> evs = plan)
          /\ (r = ErrorPage NoUsableStream -> evs = EvExtract video_url :: thumb)).
Proof.
  intros env cfg now form w video_url r w'.
  unfold r, w', index_post. fold video_url. split.
  - intros Hv. destruct video_url; [split; [reflexivity | now left]|].
    rewrite Hv. cbn [negb fst snd]. split; [reflexivity | now right].
  - intros Hv. destruct video_url as [|c u] eqn:Hu; [discriminate|].
    rewrite Hv. cbn [negb]. rewrite <- Hu.
    pose proof (index_try_follows_steps env cfg now video_url w) as H.
    unfold wp in H.
    destruct (index_try env cfg now video_url w) as [[page|e] w1];
      cbn [fst snd response_of] in *; exact H.
Qed.

(** ** Where the files of a run land *)

Lemma sanitized_title_clean (title : str) : clean_title (sanitize_filename title).
Proof. intros c. apply sanitize_legal. Qed.

Lemma digits_no_slash (s : str) :
  Forall (fun c => is_digit c = true) s -> ~ In 47 s.
Proof.
  intros Hall Hin. rewrite List.Forall_forall in Hall.
  specialize (Hall 47 Hin). discriminate.
Qed.

Lemma path_join_plain (a b : str) :
  a <> [] -> endswith (lit "/") a = false -> startswith (lit "/") b = false ->
  path_join a b = a ++ lit "/" ++ b.
Proof.
  intros Ha He Hb. unfold path_join. rewrite Hb.
  destruct a as [|c a]; [contradiction|]. now rewrite He.
Qed.

Lemma app_config_join_downloads vt rest :
  clean_title vt ->
  path_join (DOWNLOAD_FOLDER app_config) (vt ++ lit "_" ++ rest)
  = lit "downloads/" ++ vt ++ lit "_" ++ rest.
Proof.
  intros Hvt. rewrite path_join_plain;
    [reflexivity | discriminate | reflexivity | now apply clean_title_no_slash].
Qed.

Lemma app_config_join_temp vt rest :
  clean_title vt ->
  path_join (TEMP_FOLDER app_config) (vt ++ lit "_" ++ rest)
  = lit "temp/" ++ vt ++ lit "_" ++ rest.
Proof.
  intros Hvt. rewrite path_join_plain;
    [reflexivity | discriminate | reflexivity | now apply clean_title_no_slash].
Qed.

Section RunPaths.
Variable vt : str.
Variable ts : str.
Hypothesis vt_clean : clean_title vt.

Local Abbreviation prefix := (filename_prefix_of vt ts).

Lemma final_path_plain :
  final_video_path_of app_config prefix = lit "downloads/" ++ vt ++ lit "_" ++ ts ++ lit ".mp4".
Proof.
  unfold final_video_path_of, final_video_filename_of, filename_prefix_of.
  rewrite <- !app_assoc. now apply app_config_join_downloads.
Qed.

Lemma thumbnail_path_plain :
  thumbnail_path_of app_config prefix
  = lit "downloads/" ++ vt ++ lit "_" ++ ts ++ lit "_thumb.jpg".
Proof.
  unfold thumbnail_path_of, filename_prefix_of.
  rewrite <- !app_assoc. now apply app_config_join_downloads.
Qed.

Lemma temp_video_path_plain ext :
  temp_video_path_of app_config prefix ext
  = lit "temp/" ++ vt ++ lit "_" ++ ts ++ lit "_video." ++ py_format ext.
Proof.
  unfold temp_video_path_of, filename_prefix_of.
  rewrite <- !app_assoc. now apply app_config_join_temp.
Qed.

Lemma temp_audio_path_plain ext :
  temp_audio_path_of app_config prefix ext
  = lit "temp/" ++ vt ++ lit "_" ++ ts ++ lit "_audio." ++ py_format ext.
Proof.
  unfold temp_audio_path_of, filename_prefix_of.
  rewrite <- !app_assoc. now apply app_config_join_temp.
Qed.

Lemma run_paths_NoDup vext aext :
  NoDup [ thumbnail_path_of app_config prefix;
          final_video_path_of app_config prefix;
          temp_video_path_of app_config prefix vext;
          temp_audio_path_of app_config prefix aext ].
Proof.
  assert (temp_video_path_of app_config prefix vext
          <> temp_audio_path_of app_config prefix aext) as Hva
    by apply temp_paths_differ, prefix_nonempty.
  assert (thumbnail_path_of app_config prefix <> final_video_path_of app_config prefix)
    as Htf.
  { intros E. apply (thumbnail_not_final app_config prefix). now exists prefix. }
  rewrite thumbnail_path_plain, final_path_plain, temp_video_path_plain,
    temp_audio_path_plain in *.
  repeat constructor; rewrite ?elem_of_cons, ?elem_of_nil.
  - intros [E | [E | [E | []]]]; [contradiction | discriminate | discriminate].
  - intros [E | [E | []]]; discriminate.
  - intros [E | []]; contradiction.
  - intros [].
Qed.

End RunPaths.

(** Under the configuration of the application the files of a run land in
    their folders whatever the title: the final file and the thumbnail are
    direct children of the download folder, the name on the success page
    holding no separator when the timestamp is one; the two temporary paths
    begin with the temp folder; and the four paths are pairwise distinct, so
    no step of a run overwrites the file of another step. *)
Theorem run_files_land_in_their_folders :
  forall (title : str) (now : datetime) (vext aext : pyval),
    let vt := sanitize_filename title in
    let ts := strftime_YmdHMS now in
    let prefix := filename_prefix_of vt ts in
    final_video_path_of app_config prefix
      = lit "downloads/" ++ final_video_filename_of prefix
    /\ ~ In 47 (final_video_filename_of prefix)
    /\ thumbnail_path_of app_config prefix
       = lit "downloads/" ++ prefix ++ lit "_thumb.jpg"
    /\ ~ In 47 (prefix ++ lit "_thumb.jpg")
    /\ temp_video_path_of app_config prefix vext
       = lit "temp/" ++ prefix ++ lit "_video." ++ py_format vext
    /\ temp_audio_path_of app_config prefix aext
       = lit "temp/" ++ prefix ++ lit "_audio." ++ py_format aext
    /\ NoDup [ thumbnail_path_of app_config prefix;
               final_video_path_of app_config prefix;
               temp_video_path_of app_config prefix vext;
               temp_audio_path_of app_config prefix aext ].
Proof.
  intros title now vext aext vt ts prefix.
  pose proof (sanitized_title_clean title) as Hvt. fold vt in Hvt.
  assert (~ In 47 prefix) as Hp.
  { unfold prefix, filename_prefix_of. intros Hin.
    apply in_app_or in Hin as [Hin|Hin].
    - apply Hvt in Hin. discriminate.
    - apply in_app_or in Hin as [[E|[]]|Hin]; [discriminate|].
      exact (digits_no_slash ts (strftime_digits now) Hin). }
  assert (forall x, ~ In 47 x -> ~ In 47 (prefix ++ x)) as Hpx.
  { intros x Hx Hin. apply in_app_or in Hin as [Hin|Hin]; contradiction. }
  split; [|split; [|split; [|split; [|split; [|split]]]]].
  - unfold prefix. rewrite final_path_plain by exact Hvt.
    unfold final_video_filename_of, filename_prefix_of.
    now rewrite <- !app_assoc.
  - apply Hpx. cbn. intros H. repeat destruct H as [H|H]; try discriminate; exact H.
  - unfold prefix. rewrite thumbnail_path_plain by exact Hvt.
    unfold filename_prefix_of. now rewrite <- !app_assoc.
  - apply Hpx. cbn. intros H. repeat destruct H as [H|H]; try discriminate; exact H.
  - unfold prefix. rewrite temp_video_path_plain by exact Hvt.
    unfold filename_prefix_of. now rewrite <- !app_assoc.
  - unfold prefix. rewrite temp_audio_path_plain by exact Hvt.
    unfold filename_prefix_of. now rewrite <- !app_assoc.
  - now apply run_paths_NoDup.
Qed.

(** ** What the success page promises *)

Lemma video_title_fixed (fields : pydict) ts vt :
  video_title_of fields ts = Return vt -> sanitize_filename vt = vt.
Proof.
  unfold video_title_of. destruct (get_default _ _ _) as [| |s]; try discriminate.
  intros [= <-]. apply sanitize_fixed.
  - apply sanitize_legal.
  - intros c r. apply strip_first.
  - intros c r. apply strip_last.
Qed.

Section SuccessfulRun.
Variable env : environment.
Variable cfg : config.
Variable now : datetime.
Variable video_url : str.

Lemma thumbnail_step_files tu prefix (R : result (option str) -> world -> Prop) w :
  (forall th w2,
     files w ⊆ files w2 ->
     files w2 ⊆ {[ thumbnail_path_of cfg prefix ]} ∪ files w ->
     (th = None \/ (th = Some (prefix ++ lit "_thumb.jpg")
                    /\ thumbnail_path_of cfg prefix ∈ files w2)) ->
     R (Return th) w2) ->
  wp (if truthy tu then download_thumbnail env cfg tu prefix else ret None) R w.
Proof.
  intros HR. destruct (truthy tu).
  - unfold download_thumbnail. apply wp_effect_bind.
    destruct (fetch_thumbnail env tu (thumbnail_path_of cfg prefix)) as [|[|]];
      unfold wp; cbn [bindM effect ret fst snd]; apply HR; cbn;
      try (now left); set_solver.
  - apply wp_ret. apply HR; [set_solver | set_solver | now left].
Qed.

Lemma download_step_world fid o (R : result unit -> world -> Prop) w :
  (forall e w1, R (Raise e) w1) ->
  (forall b : bool,
     R (Return tt) ((if b then create o else id) (record (EvDownload video_url fid o) w))) ->
  wp (ydl_download_to env video_url fid o) R w.
Proof.
  intros HRaise HRet. unfold ydl_download_to. apply wp_effect_bind.
  destruct (ydl_download env video_url fid o) as [raises leaves].
  cbn [dl_raises dl_leaves_file].
  destruct leaves, raises; unfold wp; cbn [bindM effect throw ret fst snd];
    first [apply HRaise | apply (HRet true) | apply (HRet false)].
Qed.

Lemma index_try_success w :
  wp (index_try env cfg now video_url)
     (fun r w' => forall fn vt th dur upl,
        r = Return (SuccessPage fn vt th dur upl) ->
        success_story env cfg now video_url w fn vt th w') w.
Proof.
  unfold index_try. apply wp_effect_bind.
  apply wp_lift_bind. destruct (extract_info env video_url) as [info|e];
    [|intros; discriminate].
  apply wp_lift_bind.
  destruct (video_title_of _ _) as [vt|e] eqn:Hvt; [|intros; discriminate].
  apply wp_bind, thumbnail_step_files. intros th w2 Hsub Hsup Hth. cbv beta iota.
  cbn [record files] in Hsub, Hsup.
  apply wp_lift_bind. destruct (select_streams _ _) as [[|selv sela]|e];
    [apply wp_ret; intros; discriminate | | intros; discriminate].
  apply wp_lift_bind. destruct (getitem selv "ext") as [vext|e]; [|intros; discriminate].
  apply wp_lift_bind. destruct (getitem sela "ext") as [aext|e]; [|intros; discriminate].
  apply wp_lift_bind. destruct (getitem selv "format_id") as [vid|e];
    [|intros; discriminate].
  apply wp_bind, download_step_world; [intros; discriminate|].
  intros bv. cbv beta iota.
  apply wp_lift_bind. destruct (getitem sela "format_id") as [aid|e];
    [|intros; discriminate].
  apply wp_bind, download_step_world; [intros; discriminate|].
  intros ba. cbv beta iota.
  set (prefix := filename_prefix_of vt (strftime_YmdHMS now)).
  set (tv := temp_video_path_of cfg prefix vext).
  set (ta := temp_audio_path_of cfg prefix aext).
  set (w3 := (if bv then create tv else id) (record (EvDownload video_url (py_format vid) tv) w2)).
  set (w4 := (if ba then create ta else id) (record (EvDownload video_url (py_format aid) ta) w3)).
  assert (tv <> ta) as Hne by (apply temp_paths_differ, prefix_nonempty).
  unfold wp.
  destruct (merge_and_finish_cases env cfg tv ta (final_video_filename_of prefix)
              (final_video_path_of cfg prefix) vt th
              (get_default (vi_fields info) "duration" (VInt 0))
              (get_default (vi_fields info) "uploader" (VStr unknown_uploader))
              w4 Hne) as [[_ ->] | (Hv & Ha & Hrun)]; cbn [fst snd];
    [intros; discriminate|].
  destruct (run_ffmpeg env _) as [rc wrote|] eqn:Htool.
  2: { rewrite Hrun. intros; discriminate. }
  cbv zeta in Hrun. destruct (Z.eqb_spec rc 0) as [->|_]; rewrite Hrun; cbn [fst snd];
    [|intros; discriminate].
  intros fn vt' th' dur upl [= <- <- <- <- <-].
  split; [exact (video_title_clean _ _ _ Hvt)|].
  split; [exact (video_title_fixed _ _ _ Hvt)|].
  split; [reflexivity|].
  exists w2, vext, aext, (py_format vid), (py_format aid), bv, ba, wrote.
  cbv zeta. fold prefix tv ta w3 w4. auto 10.
Qed.

End SuccessfulRun.

Lemma thumbnail_path_head prefix :
  head (thumbnail_path_of app_config prefix) = Some 47
  \/ head (thumbnail_path_of app_config prefix) = Some 100.
Proof.
  unfold thumbnail_path_of, path_join.
  destruct (prefix ++ lit "_thumb.jpg") as [|c r]; [now right|].
  cbn [startswith lit map list_ascii_of_string]. unfold char_eqb.
  destruct (N.eqb_spec (N_of_ascii "/") c) as [<-|_]; [now left | now right].
Qed.

Lemma elem_maybe_create (b : bool) (p q : str) w :
  q ∈ files ((if b then create p else id) w) <-> (b = true /\ q = p) \/ q ∈ files w.
Proof.
  destruct b; cbn.
  - rewrite elem_of_union, elem_of_singleton. intuition.
  - intuition. discriminate.
Qed.

Lemma elem_removed env (p q : str) w :
  q ∈ files (removed env p w)
  <-> q ∈ files w /\ (q = p -> os_remove_raises env p = true).
Proof.
  unfold removed. destruct (os_remove_raises env p); cbn.
  - intuition.
  - rewrite elem_of_difference, elem_of_singleton. intuition. discriminate.
Qed.

Lemma index_post_success_story env cfg now form w fn vt th dur upl w' :
  index_post env cfg now form w = (SuccessPage fn vt th dur upl, w') ->
  exists video_url, success_story env cfg now video_url w fn vt th w'.
Proof.
  intros Hpost. unfold index_post in Hpost.
  destruct (strip (default [] form)) as [|c u] eqn:Hu; [discriminate|].
  destruct (is_valid_bilibili_url (c :: u)); cbn [negb] in Hpost; [|discriminate].
  pose proof (index_try_success env cfg now (c :: u) w) as Hs. unfold wp in Hs.
  destruct (index_try env cfg now (c :: u) w) as [[page|e] w1];
    cbn [fst snd] in Hs; [|discriminate].
  injection Hpost as -> ->. exists (c :: u). now apply (Hs _ _ _ dur upl).
Qed.

Lemma success_story_files env now video_url w fn vt th w' :
  success_story env app_config now video_url w fn vt th w' ->
    let prefix := filename_prefix_of vt (strftime_YmdHMS now) in
    let final := final_video_path_of app_config prefix in
    let thumb := thumbnail_path_of app_config prefix in
    sanitize_filename vt = vt
    /\ fn = prefix ++ lit ".mp4"
    /\ (th = None \/ (th = Some (prefix ++ lit "_thumb.jpg") /\ thumb ∈ files w'))
    /\ exists vext aext wrote,
         let tv := temp_video_path_of app_config prefix vext in
         let ta := temp_audio_path_of app_config prefix aext in
         run_ffmpeg env (ffmpeg_command app_config tv ta final) = ToolExit 0 wrote
         /\ (final ∈ files w' <-> final ∈ files w \/ wrote = true)
         /\ (tv ∈ files w' <-> os_remove_raises env tv = true)
         /\ (ta ∈ files w' <-> os_remove_raises env ta = true)
         /\ (forall p, p ∈ files w -> p <> tv -> p <> ta -> p ∈ files w')
         /\ (forall p, p ∈ files w' ->
               p ∈ files w \/ p = thumb \/ p = final \/ p = tv \/ p = ta).
Proof.
  intros Hs prefix final thumb.
  destruct Hs
    as (Hclean & Hfix & Hfn & w2 & vext & aext & vid & aid & bv & ba & wrote & Hstory).
  cbv zeta in Hstory. fold prefix final thumb in Hstory.
  destruct Hstory as (Hsub & Hsup & Hth & Hin_tv & Hin_ta & Htool & ->).
  pose proof (run_paths_NoDup vt (strftime_YmdHMS now) Hclean vext aext) as Hnd.
  fold prefix final thumb in Hnd.
  set (tv := temp_video_path_of app_config prefix vext) in *.
  set (ta := temp_audio_path_of app_config prefix aext) in *.
  apply NoDup_cons in Hnd as [Hn1 Hnd]. apply NoDup_cons in Hnd as [Hn2 Hnd].
  apply NoDup_cons in Hnd as [Hn3 _].
  rewrite !elem_of_cons, elem_of_nil in Hn1.
  rewrite !elem_of_cons, elem_of_nil in Hn2.
  rewrite !elem_of_cons, elem_of_nil in Hn3.
  assert (thumb <> tv /\ thumb <> ta /\ final <> tv /\ final <> ta /\ tv <> ta
          /\ thumb <> final) as (D1 & D2 & D3 & D4 & D5 & D6) by tauto.
  clear Hn1 Hn2 Hn3.
  split; [exact Hfix|]. split; [exact Hfn|].
  assert (forall q,
            q ∈ files (removed env ta (removed env tv
                         ((if wrote then create final else id)
                            (record (EvFfmpeg (ffmpeg_command app_config tv ta final))
                               ((if ba then create ta else id)
                                  (record (EvDownload video_url aid ta)
                                     ((if bv then create tv else id)
                                        (record (EvDownload video_url vid tv) w2))))))))
            <-> (((wrote = true /\ q = final) \/ (ba = true /\ q = ta)
                  \/ (bv = true /\ q = tv) \/ q ∈ files w2)
                 /\ (q = tv -> os_remove_raises env tv = true))
                /\ (q = ta -> os_remove_raises env ta = true)) as Hmem.
  { intros q. rewrite !elem_removed, !elem_maybe_create. cbn [record files].
    rewrite !elem_maybe_create. cbn [record files].
    rewrite !elem_maybe_create. cbn [record files]. reflexivity. }
  rewrite !elem_maybe_create in Hin_tv, Hin_ta. cbn [record files] in Hin_tv, Hin_ta.
  rewrite !elem_maybe_create in Hin_tv, Hin_ta. cbn [record files] in Hin_tv, Hin_ta.
  rewrite elem_of_subseteq in Hsub, Hsup.
  assert (forall q, q ∈ files w2 -> q = thumb \/ q ∈ files w) as Hsup'.
  { intros q Hq. apply Hsup in Hq. rewrite elem_of_union, elem_of_singleton in Hq.
    exact Hq. }
  clear Hsup.
  split.
  { destruct Hth as [Hth | [Hth Hin]]; [now left | right].
    split; [exact Hth|]. apply Hmem.
    split; [split|]; [auto 6 | contradiction | contradiction]. }
  exists vext, aext, wrote. cbv zeta. fold tv ta.
  split; [exact Htool|].
  split.
  { rewrite Hmem. split.
    - intros [[Hq _] _].
      destruct Hq as [[Hw _] | [[_ E] | [[_ E] | Hq]]];
        [now right | contradiction | contradiction |].
      destruct (Hsup' _ Hq) as [E | Hw]; [symmetry in E; contradiction | now left].
    - intros Hq. split; [split|]; [|contradiction | contradiction].
      destruct Hq as [Hw | Hw]; [auto 6 | now left]. }
  split.
  { rewrite Hmem. split.
    - intros [[_ Hr] _]. now apply Hr.
    - intros Hr. split; [split|]; [now right | auto | contradiction]. }
  split.
  { rewrite Hmem. split.
    - intros [_ Hr]. now apply Hr.
    - intros Hr. split; [split|]; [now right | | auto].
      intros E. symmetry in E. contradiction. }
  split.
  - intros p Hp N1 N2. apply Hmem.
    split; [split|]; [auto 6 | contradiction | contradiction].
  - intros p Hp. apply Hmem in Hp as [[Hq _] _].
    destruct Hq as [[_ ->] | [[_ ->] | [[_ ->] | Hq]]]; auto 6.
    destruct (Hsup' _ Hq); auto.
Qed.


(** What the success page promises under the configuration of the
    application. The title on the page is a fixed point of the sanitizer and
    the file name is the title, an underscore, the timestamp and [.mp4]. The
    merge tool was run on the two temporary paths and the final path and
    exited with status zero; the final file exists exactly if it existed
    before or the tool wrote it. Each temporary file is gone unless its
    removal raised. A thumbnail named on the page exists in the download
    folder. No other file was removed, and no file was created outside the
    four paths of the run. *)
Theorem success_page_postcondition :
  forall env now form w fn vt th dur upl w',
    index_post env app_config now form w = (SuccessPage fn vt th dur upl, w') ->
    let prefix := filename_prefix_of vt (strftime_YmdHMS now) in
    let final := final_video_path_of app_config prefix in
    let thumb := thumbnail_path_of app_config prefix in
    sanitize_filename vt = vt
    /\ fn = prefix ++ lit ".mp4"
    /\ (th = None \/ (th = Some (prefix ++ lit "_thumb.jpg") /\ thumb ∈ files w'))
    /\ exists vext aext wrote,
         let tv := temp_video_path_of app_config prefix vext in
         let ta := temp_audio_path_of app_config prefix aext in
         run_ffmpeg env (ffmpeg_command app_config tv ta final) = ToolExit 0 wrote
         /\ (final ∈ files w' <-> final ∈ files w \/ wrote = true)
         /\ (tv ∈ files w' <-> os_remove_raises env tv = true)
         /\ (ta ∈ files w' <-> os_remove_raises env ta = true)
         /\ (forall p, p ∈ files w -> p <> tv -> p <> ta -> p ∈ files w')
         /\ (forall p, p ∈ files w' ->
               p ∈ files w \/ p = thumb \/ p = final \/ p = tv \/ p = ta).
Proof.
  intros env now form w fn vt th dur upl w' Hpost.
  destruct (index_post_success_story _ _ _ _ _ _ _ _ _ _ _ Hpost) as [video_url Hs].
  exact (success_story_files env now video_url w fn vt th w' Hs).
Qed.

(** An instance: the successful run of the examples. *)
Lemma success_page_postcondition_witness :
  let env := demo_env (demo_info [("title", VStr (lit "clip"))] demo_formats)
               download_ok (ToolExit 0 true) in
  let out := index_post env app_config demo_now (Some demo_url) empty_world in
  fst out = SuccessPage (lit "clip_20240102030405.mp4") (lit "clip") None (VInt 0)
              (VStr unknown_uploader)
  /\ sanitize_filename (lit "clip") = lit "clip".
Proof.
  intros env out.
  assert (fst out = SuccessPage (lit "clip_20240102030405.mp4") (lit "clip") None
                      (VInt 0) (VStr unknown_uploader)) as Hpage
    by (vm_compute; reflexivity).
  split; [exact Hpage|].
  assert (out = (SuccessPage (lit "clip_20240102030405.mp4") (lit "clip") None
                   (VInt 0) (VStr unknown_uploader), snd out)) as Hout
    by (rewrite <- Hpage; now destruct out).
  exact (proj1 (success_page_postcondition env demo_now (Some demo_url) empty_world
                  _ _ _ _ _ _ Hout)).
Defined.

(** ** The thumbnail is best effort *)

Section BestEffort.
Variable cfg : config.

Local Abbreviation sim := (same_but_thumbnails cfg).

Lemma agree_bind {A B} (RA : A -> A -> Prop) (RB : B -> B -> Prop)
    (m1 m2 : M A) (k1 k2 : A -> M B) w1 w2 :
  agree cfg RA (m1 w1) (m2 w2) ->
  (forall a b w1' w2', RA a b -> sim w1' w2' -> agree cfg RB (k1 a w1') (k2 b w2')) ->
  agree cfg RB (bindM m1 k1 w1) (bindM m2 k2 w2).
Proof.
  unfold bindM. intros [Hsim Hres] Hk.
  destruct (m1 w1) as [[a|e1] w1'], (m2 w2) as [[b|e2] w2']; cbn [fst snd] in *;
    try contradiction.
  - now apply Hk.
  - split; [exact Hsim | exact Hres].
Qed.

Lemma agree_lift {A} (r : result A) w1 w2 :
  sim w1 w2 -> agree cfg eq (lift r w1) (lift r w2).
Proof. intros Hsim. split; [exact Hsim|]. now destruct r. Qed.

Lemma agree_lift_bind {A B} (RB : B -> B -> Prop) (r : result A)
    (k1 k2 : A -> M B) w1 w2 :
  sim w1 w2 ->
  (forall a, r = Return a -> agree cfg RB (k1 a w1) (k2 a w2)) ->
  agree cfg RB (bindM (lift r) k1 w1) (bindM (lift r) k2 w2).
Proof.
  intros Hsim Hk. unfold bindM, lift. destruct r as [a|e].
  - now apply Hk.
  - split; [exact Hsim | reflexivity].
Qed.

Lemma sim_record e w1 w2 :
  is_thumbnail_call e = false -> sim w1 w2 -> sim (record e w1) (record e w2).
Proof.
  intros He [Ht Hf]. split; [|exact Hf].
  cbn. unfold other_calls in *. rewrite !List.filter_app, Ht. reflexivity.
Qed.

Lemma sim_record_thumbnail u p w1 w2 :
  sim w1 w2 -> sim (record (EvThumbnail u p) w1) w2.
Proof.
  intros [Ht Hf]. split; [|exact Hf].
  cbn. unfold other_calls in *. rewrite List.filter_app, Ht. cbn. apply app_nil_r.
Qed.

Lemma sim_create p w1 w2 : sim w1 w2 -> sim (create p w1) (create p w2).
Proof.
  intros [Ht Hf]. split; [exact Ht|]. intros q Hq. cbn.
  rewrite !elem_of_union. now rewrite (Hf q Hq).
Qed.

Lemma sim_create_thumbnail prefix w1 w2 :
  sim w1 w2 -> sim (create (thumbnail_path_of cfg prefix) w1) w2.
Proof.
  intros [Ht Hf]. split; [exact Ht|]. intros q Hq. cbn.
  rewrite elem_of_union, elem_of_singleton, <- (Hf q Hq). split; [|auto].
  intros [-> | H]; [|exact H]. exfalso. apply Hq. now exists prefix.
Qed.

Lemma sim_sym w1 w2 : sim w1 w2 -> sim w2 w1.
Proof.
  intros [Ht Hf]. split; [now symmetry|]. intros q Hq. symmetry. now apply Hf.
Qed.

Lemma sim_maybe_create (b : bool) p w1 w2 :
  sim w1 w2 -> sim ((if b then create p else id) w1) ((if b then create p else id) w2).
Proof. destruct b; [apply sim_create | auto]. Qed.

Lemma sim_removed env1 env2 p w1 w2 :
  os_remove_raises env1 p = os_remove_raises env2 p ->
  sim w1 w2 -> sim (removed env1 p w1) (removed env2 p w2).
Proof.
  intros Hr Hsim. unfold removed. rewrite Hr.
  apply (sim_record (EvRemove p)) in Hsim; [|reflexivity].
  destruct (os_remove_raises env2 p); [exact Hsim|].
  destruct Hsim as [Ht Hf]. split; [exact Ht|]. intros q Hq. cbn in *.
  rewrite !elem_of_difference. now rewrite (Hf q Hq).
Qed.

Lemma thumbnail_step_agree env f1 f2 tu prefix w1 w2 :
  sim w1 w2 ->
  agree cfg (fun _ _ => True)
    ((if truthy tu then download_thumbnail (with_thumbnail env f1) cfg tu prefix
      else ret None) w1)
    ((if truthy tu then download_thumbnail (with_thumbnail env f2) cfg tu prefix
      else ret None) w2).
Proof.
  intros Hsim. destruct (truthy tu); [|split; [exact Hsim | exact I]].
  unfold download_thumbnail, bindM, effect. cbn [with_thumbnail fetch_thumbnail].
  assert (forall (b1 b2 : bool),
            sim ((if b1 then create (thumbnail_path_of cfg prefix) else id)
                   (record (EvThumbnail tu (thumbnail_path_of cfg prefix)) w1))
                ((if b2 then create (thumbnail_path_of cfg prefix) else id)
                   (record (EvThumbnail tu (thumbnail_path_of cfg prefix)) w2))) as H.
  { intros b1 b2.
    assert (sim (record (EvThumbnail tu (thumbnail_path_of cfg prefix)) w1)
                (record (EvThumbnail tu (thumbnail_path_of cfg prefix)) w2)) as H0.
    { apply sim_record_thumbnail, sim_sym, sim_record_thumbnail, sim_sym, Hsim. }
    destruct b1, b2; cbn [id]; auto.
    - apply sim_create_thumbnail, sim_sym, sim_create_thumbnail, sim_sym, H0.
    - apply sim_create_thumbnail, H0.
    - apply sim_sym, sim_create_thumbnail, sim_sym, H0. }
  destruct (f1 tu (thumbnail_path_of cfg prefix)) as [|[|]],
           (f2 tu (thumbnail_path_of cfg prefix)) as [|[|]];
    cbn [ret fst snd]; (split; [|exact I]); cbn [fst snd];
    first [ apply (H true true) | apply (H true false) | apply (H false true)
          | apply (H false false) ].
Qed.

Lemma download_step_agree env f1 f2 url fid o w1 w2 :
  sim w1 w2 ->
  agree cfg eq (ydl_download_to (with_thumbnail env f1) url fid o w1)
               (ydl_download_to (with_thumbnail env f2) url fid o w2).
Proof.
  intros Hsim. unfold ydl_download_to, bindM, effect.
  cbn [with_thumbnail ydl_download].
  apply (sim_record (EvDownload url fid o)) in Hsim; [|reflexivity].
  destruct (ydl_download env url fid o) as [raises leaves].
  cbn [dl_raises dl_leaves_file].
  destruct leaves, raises; unfold ret, throw; cbv beta iota;
    (split; [|reflexivity]); cbn [fst snd]; auto using sim_create.
Qed.

Lemma merge_and_finish_agree env f1 f2 tv ta fn fp vt th1 th2 dur upl w1 w2 :
  tv <> ta -> ~ is_thumbnail_path cfg tv -> ~ is_thumbnail_path cfg ta ->
  sim w1 w2 ->
  agree cfg (fun a b => forget_thumbnail a = forget_thumbnail b)
    (merge_and_finish (with_thumbnail env f1) cfg tv ta fn fp vt th1 dur upl w1)
    (merge_and_finish (with_thumbnail env f2) cfg tv ta fn fp vt th2 dur upl w2).
Proof.
  intros Hne Hv Ha Hsim.
  pose proof (proj2 Hsim tv Hv) as Htv. pose proof (proj2 Hsim ta Ha) as Hta.
  destruct (merge_and_finish_cases (with_thumbnail env f1) cfg tv ta fn fp vt th1
              dur upl w1 Hne) as [[Hno ->] | (Hv1 & Ha1 & H1)];
    destruct (merge_and_finish_cases (with_thumbnail env f2) cfg tv ta fn fp vt th2
                dur upl w2 Hne) as [[Hno' ->] | (Hv2 & Ha2 & H2)].
  - split; [exact Hsim | reflexivity].
  - exfalso. rewrite Htv, Hta in Hno. destruct Hno; contradiction.
  - exfalso. rewrite <- Htv, <- Hta in Hno'. destruct Hno'; contradiction.
  - cbn [with_thumbnail run_ffmpeg] in H1, H2.
    set (argv := ffmpeg_command cfg tv ta fp) in *.
    assert (sim (record (EvFfmpeg argv) w1) (record (EvFfmpeg argv) w2)) as Hrec
      by (now apply sim_record).
    destruct (run_ffmpeg env argv) as [rc wrote|].
    + cbv zeta in H1, H2. destruct (Z.eqb rc 0); rewrite H1, H2.
      * split; [|reflexivity]. cbn [fst snd].
        apply sim_removed; [reflexivity|]. apply sim_removed; [reflexivity|].
        now apply sim_maybe_create.
      * split; [|reflexivity]. cbn [fst snd]. now apply sim_maybe_create.
    + rewrite H1, H2. split; [exact Hrec | reflexivity].
Qed.

End BestEffort.

Lemma temp_not_thumbnail o : temp_shape o -> ~ is_thumbnail_path app_config o.
Proof.
  unfold temp_shape. intros Ho [prefix ->].
  destruct (thumbnail_path_head prefix) as [H|H]; rewrite H in Ho; discriminate.
Qed.

Lemma index_try_agree env f1 f2 now url w1 w2 :
  same_but_thumbnails app_config w1 w2 ->
  agree app_config (fun a b => forget_thumbnail a = forget_thumbnail b)
    (index_try (with_thumbnail env f1) app_config now url w1)
    (index_try (with_thumbnail env f2) app_config now url w2).
Proof.
  intros Hsim. unfold index_try.
  apply (agree_bind app_config eq).
  { split; [|reflexivity]. now apply (sim_record app_config (EvExtract url)). }
  clear w1 w2 Hsim. intros _ _ w1 w2 _ Hsim.
  cbn [with_thumbnail extract_info].
  apply agree_lift_bind; [exact Hsim|]. intros info _.
  apply agree_lift_bind; [exact Hsim|]. intros vt Hvt.
  apply video_title_clean in Hvt.
  apply (agree_bind app_config (fun _ _ => True)).
  { now apply thumbnail_step_agree. }
  clear w1 w2 Hsim. intros th1 th2 w1 w2 _ Hsim.
  apply agree_lift_bind; [exact Hsim|]. intros [|selv sela] _.
  { split; [exact Hsim | reflexivity]. }
  apply agree_lift_bind; [exact Hsim|]. intros vext _.
  apply agree_lift_bind; [exact Hsim|]. intros aext _.
  apply agree_lift_bind; [exact Hsim|]. intros vid _.
  apply (agree_bind app_config eq).
  { now apply download_step_agree. }
  clear w1 w2 Hsim. intros _ _ w1 w2 _ Hsim.
  apply agree_lift_bind; [exact Hsim|]. intros aid _.
  apply (agree_bind app_config eq).
  { now apply download_step_agree. }
  clear w1 w2 Hsim. intros _ _ w1 w2 _ Hsim.
  apply merge_and_finish_agree; [| | | exact Hsim].
  - apply temp_paths_differ, prefix_nonempty.
  - now apply temp_not_thumbnail, temp_video_path_shape.
  - now apply temp_not_thumbnail, temp_audio_path_shape.
Qed.

(** The thumbnail is best effort. Under the configuration of the
    application, two requests that differ only in how the thumbnail fetch
    answers (saved, failed, failed leaving a file) get the same page apart
    from the thumbnail it names, make the same calls apart from the fetch,
    and leave the same files apart from thumbnail paths: a failure of the
    fetch never fails the request nor changes which streams are downloaded
    and merged. *)
Theorem thumbnail_is_best_effort :
  forall env fetch1 fetch2 now form w,
    let out1 := index_post (with_thumbnail env fetch1) app_config now form w in
    let out2 := index_post (with_thumbnail env fetch2) app_config now form w in
    forget_thumbnail (fst out1) = forget_thumbnail (fst out2)
    /\ other_calls (trace (snd out1)) = other_calls (trace (snd out2))
    /\ (forall q, ~ is_thumbnail_path app_config q ->
          (q ∈ files (snd out1) <-> q ∈ files (snd out2))).
Proof.
  intros env f1 f2 now form w out1 out2. unfold out1, out2, index_post.
  destruct (strip (default [] form)) as [|c u]; [cbn; auto|].
  destruct (is_valid_bilibili_url (c :: u)); cbn [negb]; [|cbn; auto].
  assert (same_but_thumbnails app_config w w) as Hsim by (split; [reflexivity | tauto]).
  destruct (index_try_agree env f1 f2 now (c :: u) w w Hsim) as [[Ht Hf] Hres].
  destruct (index_try (with_thumbnail env f1) app_config now (c :: u) w) as [[r1|e1] w1],
           (index_try (with_thumbnail env f2) app_config now (c :: u) w) as [[r2|e2] w2];
    cbn [fst snd] in *; try contradiction.
  - auto.
  - subst e2. auto.
Qed.

(** ** The links of the success page *)

(** The links of the success page resolve. Under the configuration of the
    application, with a merge tool that writes its output whenever it exits
    with status zero, right after a request answered with the success page
    the download route on the file name of the page finds the merged file and
    sends it as an attachment, and the thumbnail route on a thumbnail named
    on the page finds the thumbnail and sends it as a JPEG image; a
    [send_file] that raises turns the first into a redirect and the second
    into an empty 204 answer. *)
Theorem success_page_links_resolve :
  forall env now form w fn vt th dur upl w' send_file,
    index_post env app_config now form w = (SuccessPage fn vt th dur upl, w') ->
    tool_writes_on_success env ->
    download_file app_config send_file fn w'
    = match send_file (lit "downloads/" ++ fn) with
      | None => SendFile (lit "downloads/" ++ fn) true None
      | Some e => RedirectToIndex (SendFailed e)
      end
    /\ (forall name, th = Some name ->
          serve_thumbnail app_config send_file name w'
          = match send_file (lit "downloads/" ++ name) with
            | None => SendFile (lit "downloads/" ++ name) false (Some (lit "image/jpeg"))
            | Some _ => NoContent
            end).
Proof.
  intros env now form w fn vt th dur upl w' send_file Hpost Htool.
  destruct (index_post_success_story _ _ _ _ _ _ _ _ _ _ _ Hpost) as [video_url Hs].
  pose proof (proj1 Hs) as Hclean.
  destruct (success_story_files env now video_url w fn vt th w' Hs)
    as (_ & Hfn & Hth & vext & aext & wrote & Hrun & Hfinal & _).
  cbv zeta in *.
  pose proof (final_path_plain vt (strftime_YmdHMS now) Hclean) as Hfp.
  pose proof (thumbnail_path_plain vt (strftime_YmdHMS now) Hclean) as Htp.
  apply Htool in Hrun. subst wrote.
  assert (final_video_path_of app_config (filename_prefix_of vt (strftime_YmdHMS now))
          ∈ files w') as Hin by (apply Hfinal; now right).
  split.
  - unfold download_file, path_exists.
    assert (path_join (DOWNLOAD_FOLDER app_config) fn = lit "downloads/" ++ fn) as E.
    { rewrite Hfn. unfold final_video_path_of, final_video_filename_of in Hfp.
      rewrite Hfp. unfold filename_prefix_of. now rewrite <- !app_assoc. }
    rewrite E. rewrite Hfn in *.
    unfold final_video_path_of, final_video_filename_of in Hin. rewrite E in Hin.
    now rewrite (bool_decide_eq_true_2 _ Hin).
  - intros name Hname. destruct Hth as [Hth | [Hth Hthumb]]; [congruence|].
    rewrite Hth in Hname. injection Hname as <-.
    unfold serve_thumbnail, path_exists.
    assert (path_join (DOWNLOAD_FOLDER app_config)
              (filename_prefix_of vt (strftime_YmdHMS now) ++ lit "_thumb.jpg")
            = lit "downloads/" ++ filename_prefix_of vt (strftime_YmdHMS now)
              ++ lit "_thumb.jpg") as E.
    { unfold thumbnail_path_of in Htp. rewrite Htp.
      unfold filename_prefix_of. now rewrite <- !app_assoc. }
    unfold thumbnail_path_of in Hthumb. rewrite E in *.
    now rewrite (bool_decide_eq_true_2 _ Hthumb).
Qed.

(** An instance: the successful run of the examples, with a [send_file] that
    does not raise. *)
Lemma success_page_links_resolve_witness :
  let env := demo_env (demo_info [("title", VStr (lit "clip"))] demo_formats)
               download_ok (ToolExit 0 true) in
  let out := index_post env app_config demo_now (Some demo_url) empty_world in
  tool_writes_on_success env
  /\ download_file app_config (fun _ => None) (lit "clip_20240102030405.mp4") (snd out)
     = SendFile (lit "downloads/clip_20240102030405.mp4") true None.
Proof.
  intros env out.
  assert (tool_writes_on_success env) as Htool
    by (intros argv wrote Hrun; now inversion Hrun).
  split; [exact Htool|].
  assert (fst out = SuccessPage (lit "clip_20240102030405.mp4") (lit "clip") None
                      (VInt 0) (VStr unknown_uploader)) as Hpage
    by (vm_compute; reflexivity).
  assert (out = (SuccessPage (lit "clip_20240102030405.mp4") (lit "clip") None
                   (VInt 0) (VStr unknown_uploader), snd out)) as Hout
    by (rewrite <- Hpage; now destruct out).
  exact (proj1 (success_page_links_resolve env demo_now (Some demo_url) empty_world
                  _ _ _ _ _ _ (fun _ => None) Hout Htool)).
Defined.

(** ** Malformed metadata *)

Lemma download_step_exact env url fid o (R : result unit -> world -> Prop) w :
  dl_raises (ydl_download env url fid o) = false ->
  R (Return tt)
    ((if dl_leaves_file (ydl_download env url fid o) then create o else id)
       (record (EvDownload url fid o) w)) ->
  wp (ydl_download_to env url fid o) R w.
Proof.
  intros Hr HR. unfold ydl_download_to, wp, bindM, effect. rewrite Hr.
  destruct (dl_leaves_file (ydl_download env url fid o)); exact HR.
Qed.

(** Metadata that lacks what the steps read. A title that is present but is
    not a string makes the sanitizer raise [TypeError] right after the call
    of the extractor. A selected descriptor without [ext], or a selected
    video descriptor without [format_id], raises [KeyError] before any
    download. A selected audio descriptor without [format_id] is found out
    only after the video stream has been downloaded: the request fails with
    [KeyError] and the temporary video file the download left stays on
    disk. *)
Theorem malformed_metadata_fails_the_run :
  forall env cfg now video_url w info,
    extract_info env video_url = Return info ->
    let ts := strftime_YmdHMS now in
    let out := index_try env cfg now video_url w in
    (forall v, vi_fields info !! "title" = Some v -> (forall s, v <> VStr s) ->
       out = (Raise TypeError, record (EvExtract video_url) w))
    /\ (forall vt sv sa,
          video_title_of (vi_fields info) ts = Return vt ->
          select_streams cfg (default [] (vi_formats info)) = Return (Selected sv sa) ->
          (sv !! "ext" = None \/ sa !! "ext" = None \/ sv !! "format_id" = None ->
           fst out = Raise KeyError
           /\ forall u f o, In (EvDownload u f o) (trace (snd out)) ->
                            In (EvDownload u f o) (trace w))
          /\ (forall vext aext vid,
                sv !! "ext" = Some vext -> sa !! "ext" = Some aext ->
                sv !! "format_id" = Some vid -> sa !! "format_id" = None ->
                let tv := temp_video_path_of cfg (filename_prefix_of vt ts) vext in
                dl_raises (ydl_download env video_url (py_format vid) tv) = false ->
                fst out = Raise KeyError
                /\ In (EvDownload video_url (py_format vid) tv) (trace (snd out))
                /\ (dl_leaves_file (ydl_download env video_url (py_format vid) tv) = true ->
                    tv ∈ files (snd out)))).
Proof.
  intros env cfg now video_url w info Hinfo ts out. split.
  - intros v Hv Hns. unfold out, index_try, bindM, effect, lift.
    rewrite Hinfo. unfold video_title_of, get_default. rewrite Hv. cbn [default].
    destruct v as [| |s]; [reflexivity | reflexivity |].
    now destruct (Hns s).
  - intros vt sv sa Hvt Hsel. split.
    + intros Hmiss.
      change (wp (index_try env cfg now video_url)
                (fun r w' => r = Raise KeyError
                   /\ forall u f o, In (EvDownload u f o) (trace w') ->
                                    In (EvDownload u f o) (trace w)) w).
      unfold index_try. apply wp_effect_bind. rewrite Hinfo. apply wp_lift_bind.
      fold ts. rewrite Hvt. apply wp_lift_bind.
      apply wp_bind, (thumbnail_step_trace env cfg). intros th w2 thumb Hthumb H2.
      cbv beta iota. rewrite Hsel. apply wp_lift_bind.
      assert (forall u f o, In (EvDownload u f o) (trace w2) ->
                            In (EvDownload u f o) (trace w)) as Hno.
      { intros u f o. rewrite H2. cbn [record trace]. rewrite !in_app_iff.
        intros [[Hin | [E | []]] | Hin]; [exact Hin | discriminate |].
        destruct Hthumb as [-> | [tu ->]]; [destruct Hin|].
        destruct Hin as [E | []]. discriminate. }
      unfold getitem.
      destruct (sv !! "ext") as [vext|]; [|now split].
      apply wp_lift_bind.
      destruct (sa !! "ext") as [aext|]; [|now split].
      apply wp_lift_bind.
      destruct (sv !! "format_id") as [vid|]; [|now split].
      exfalso. destruct Hmiss as [E | [E | E]]; discriminate.
    + intros vext aext vid Hve Hae Hvi Hai tv Hr.
      change (wp (index_try env cfg now video_url)
                (fun r w' => r = Raise KeyError
                   /\ In (EvDownload video_url (py_format vid) tv) (trace w')
                   /\ (dl_leaves_file (ydl_download env video_url (py_format vid) tv)
                       = true -> tv ∈ files w')) w).
      unfold index_try. apply wp_effect_bind. rewrite Hinfo. apply wp_lift_bind.
      fold ts. rewrite Hvt. apply wp_lift_bind.
      apply wp_bind, (thumbnail_step_trace env cfg). intros th w2 thumb _ _.
      cbv beta iota. rewrite Hsel. apply wp_lift_bind.
      unfold getitem. rewrite Hve, Hae, Hvi, Hai.
      apply wp_lift_bind, wp_lift_bind, wp_lift_bind. fold tv.
      apply wp_bind, download_step_exact; [exact Hr|]. cbv beta iota.
      apply wp_lift_bind. split; [reflexivity|].
      rewrite trace_maybe_create. cbn [record trace]. split.
      * apply in_or_app. right. now left.
      * intros ->. cbn. apply elem_of_union_l. now apply elem_of_singleton.
Qed.

(** An instance: metadata whose title is null. *)
Lemma malformed_metadata_fails_the_run_witness :
  let info := demo_info [("title", VNone)] demo_formats in
  let env := demo_env info download_ok (ToolExit 0 true) in
  fst (index_post env app_config demo_now (Some demo_url) empty_world)
  = ErrorPage (ProcessingFailed TypeError).
Proof.
  intros info env.
  pose proof (proj1 (malformed_metadata_fails_the_run env app_config demo_now demo_url
                       empty_world info eq_refl) VNone eq_refl) as H.
  assert (forall s, VNone <> VStr s) as Hns by discriminate.
  specialize (H Hns).
  unfold index_post.
  change (strip (default [] (Some demo_url))) with demo_url.
  change (negb (is_valid_bilibili_url demo_url)) with false.
  cbv iota. unfold demo_url at 1. cbv iota. fold demo_url.
  now rewrite H.
Defined.
